(** * WWSync: the rsync orchestration of the VS Code extension

    A shallow embedding of [rsync.ts] (the revision whose sync functions
    take a cancellation token and an environment; the parser of the
    revision before it is kept in [Earlier]) and of [sessionState.ts].

    JavaScript strings are sequences of UTF-16 code units; a code unit is a
    number of type [N].  The methods of [String.prototype] the extension
    calls ([trim], [split], [startsWith], [endsWith], [replace], [join]) are
    written out on that representation, following ECMA-262.

    An asynchronous function is a state-passing function that ends with a
    value, with an exception, or never.  The state holds the trace of what
    the extension did (lines written to the output channel, processes
    spawned and killed, messages shown) and the flag of the cancellation
    token.  What a child process and the token do while a function waits is
    given as a list of events; the handlers the source registers are run on
    them in order. *)

From Stdlib Require Import ZArith NArith List Bool Ascii String DecimalString Lia.
From stdpp Require Import base option list gmap.

Local Open Scope N_scope.
Local Open Scope list_scope.

(** ** JavaScript strings *)

Abbreviation jsstring := (list N).

(** An ASCII literal as a JavaScript string. *)
Definition str (s : string) : jsstring :=
  map N_of_ascii (list_ascii_of_string s).
Arguments str : simpl never.

Definition LF : N := 10.
Definition SLASH : N := 47.
Definition BACKSLASH : N := 92.

(** [WhiteSpace] and [LineTerminator] of ECMA-262, the code units
    [String.prototype.trim] strips. *)
Definition isWhiteSpace (c : N) : bool :=
  (c =? 9) || (c =? 10) || (c =? 11) || (c =? 12) || (c =? 13) || (c =? 32)
  || (c =? 160) || (c =? 5760) || ((8192 <=? c) && (c <=? 8202))
  || (c =? 8232) || (c =? 8233) || (c =? 8239) || (c =? 8287)
  || (c =? 12288) || (c =? 65279).

Fixpoint trimStart (s : jsstring) : jsstring :=
  match s with
  | [] => []
  | c :: s' => if isWhiteSpace c then trimStart s' else s
  end.

Definition trimEnd (s : jsstring) : jsstring :=
  reverse (trimStart (reverse s)).

(** [s.trim()] *)
Definition trim (s : jsstring) : jsstring := trimEnd (trimStart s).

(** [s.startsWith(pat)] *)
Fixpoint startsWith (s pat : jsstring) {struct pat} : bool :=
  match pat, s with
  | [], _ => true
  | _ :: _, [] => false
  | p :: pat', c :: s' => (c =? p) && startsWith s' pat'
  end.

(** [s.endsWith(pat)]: the last [length pat] code units of [s] are [pat]. *)
Definition endsWith (s pat : jsstring) : bool :=
  (length pat <=? length s)%nat
  && startsWith (drop (length s - length pat) s) pat.

(** [s.indexOf(pat)]: the least position at which [pat] occurs. *)
Fixpoint indexOf (s pat : jsstring) : option nat :=
  if startsWith s pat then Some 0%nat
  else match s with
       | [] => None
       | _ :: s' => S <$> indexOf s' pat
       end.

(** [s.replace(pat, repl)] for a string pattern: the first occurrence only.
    The replacement is taken literally (the one call site passes the empty
    string, which holds no [$] pattern). *)
Definition replace (s pat repl : jsstring) : jsstring :=
  match indexOf s pat with
  | None => s
  | Some i => take i s ++ repl ++ drop (i + length pat) s
  end.

(** [s.split(sep)] for a separator of one code unit. *)
Fixpoint split (sep : N) (s : jsstring) : list jsstring :=
  match s with
  | [] => [[]]
  | c :: s' =>
      if c =? sep then [] :: split sep s'
      else match split sep s' with
           | [] => [[c]]
           | l :: ls => (c :: l) :: ls
           end
  end.

(** [xs.join(sep)] *)
Fixpoint join (sep : jsstring) (xs : list jsstring) : jsstring :=
  match xs with
  | [] => []
  | [x] => x
  | x :: xs' => x ++ sep ++ join sep xs'
  end.

(** [xs.push(...ys)] on an array held in a variable. *)
Definition push {A} (xs ys : list A) : list A := xs ++ ys.

(** Decimal rendering of an integer inside a template literal. *)
Definition string_of_Z (z : Z) : jsstring :=
  str (NilZero.string_of_int (Z.to_int z)).

Definition string_of_nat (n : nat) : jsstring :=
  str (NilZero.string_of_uint (Nat.to_uint n)).

(** ** [config.ts]: a mapping of a local folder to a remote one *)

Record Mapping := {
  local : jsstring;
  remote : jsstring;
  excludes : list jsstring
}.

(** ** [rsync.ts]: argument vectors and the parser of the trial output *)

(** [path.sep] is ["/"] on POSIX and a backslash on Windows. *)
Inductive platform := posix | win32.

Definition path_sep (pl : platform) : jsstring :=
  match pl with
  | posix => [SLASH]
  | win32 => [BACKSLASH]
  end.

Definition ensureTrailingSlash (pl : platform) (p : jsstring) : jsstring :=
  if endsWith p (path_sep pl) || endsWith p (str "/") then p
  else p ++ str "/".

Definition buildRsyncArgs (excludes : list jsstring) (withDelete : bool)
  : list jsstring :=
  let args := [str "-avzP"] in
  let args :=
    fold_left (fun args exc => push args [str "--exclude"; exc]) excludes args in
  let args := if withDelete then push args [str "--delete"] else args in
  args.

Definition parseDeletedFiles (output : jsstring) : list jsstring :=
  let lines := split LF output in
  fold_left
    (fun files line =>
       let trimmed := trim line in
       if startsWith trimmed (str "deleting ")
       then push files [replace trimmed (str "deleting ") []]
       else files)
    lines [].

(** The two path arguments both sync functions push last. *)
Definition src_of (pl : platform) (mapping : Mapping) : jsstring :=
  ensureTrailingSlash pl (local mapping).

Definition dest_of (host : jsstring) (mapping : Mapping) : jsstring :=
  host ++ str ":" ++ remote mapping.

(** [args] of [runSafeSync]. *)
Definition safeArgs (pl : platform) (host : jsstring) (mapping : Mapping)
  : list jsstring :=
  let args := buildRsyncArgs (excludes mapping) false in
  push args [src_of pl mapping; dest_of host mapping].

(** [dryRunArgs] of [runFullSync]. *)
Definition dryRunArgs (pl : platform) (host : jsstring) (mapping : Mapping)
  : list jsstring :=
  let dryRunArgs := buildRsyncArgs (excludes mapping) true in
  push dryRunArgs [str "--dry-run"; src_of pl mapping; dest_of host mapping].

(** [syncArgs] of [runFullSync]. *)
Definition syncArgs (pl : platform) (host : jsstring) (mapping : Mapping)
  : list jsstring :=
  let syncArgs := buildRsyncArgs (excludes mapping) true in
  push syncArgs [src_of pl mapping; dest_of host mapping].

(** *** The same, in the words of the specification *)

(** A line is a deletion record when its trimmed form begins with
    ["deleting "]; its path is the rest of the trimmed line. *)
Definition deletion_record (line : jsstring) : option jsstring :=
  let t := trim line in
  if bool_decide (take 9 t = str "deleting ") then Some (drop 9 t) else None.

Definition parseDeletions (trialOutput : jsstring) : list jsstring :=
  omap deletion_record (split LF trialOutput).

(** One [--exclude] directive per pattern, each followed by its pattern. *)
Definition excludeDirectives (patterns : list jsstring) : list jsstring :=
  concat (map (fun p => [str "--exclude"; p]) patterns).

(** [rsync -avzP [--exclude p]* [--delete] [--dry-run] src dest] *)
Definition commandLine (patterns : list jsstring) (mirror trial : bool)
    (src dest : jsstring) : list jsstring :=
  [str "-avzP"] ++ excludeDirectives patterns
  ++ (if mirror then [str "--delete"] else [])
  ++ (if trial then [str "--dry-run"] else [])
  ++ [src; dest].

Definition isSeparator (pl : platform) (c : N) : bool :=
  (c =? SLASH) || bool_decide ([c] = path_sep pl).

Fixpoint leading (f : N -> bool) (s : jsstring) : nat :=
  match s with
  | [] => 0
  | c :: s' => if f c then S (leading f s') else 0
  end.

(** How many separators a path ends with. *)
Definition trailingSeparators (pl : platform) (p : jsstring) : nat :=
  leading (isSeparator pl) (reverse p).

(** ** [sessionState.ts] *)

Module SessionState.

(** The two maps of the class, and how often [_onDidChange.fire()] ran. *)
Record t := {
  _serverChoice : gmap jsstring jsstring;
  _passwords : gmap jsstring jsstring;
  _onDidChange : nat
}.

Definition create : t :=
  {| _serverChoice := ∅; _passwords := ∅; _onDidChange := 0 |}.

Definition get (key : jsstring) (this : t) : option jsstring :=
  _serverChoice this !! key.

Definition set (key value : jsstring) (this : t) : t :=
  let current := _serverChoice this !! key in
  if bool_decide (current <> Some value) then
    {| _serverChoice := <[key := value]> (_serverChoice this);
       _passwords := _passwords this;
       _onDidChange := S (_onDidChange this) |}
  else this.

Definition resetPasswords (this : t) : t :=
  {| _serverChoice := _serverChoice this;
     _passwords := ∅;
     _onDidChange := _onDidChange this |}.

Definition getPassword (prompt : jsstring) (this : t) : option jsstring :=
  _passwords this !! prompt.

Definition setPassword (prompt password : jsstring) (this : t) : t :=
  {| _serverChoice := _serverChoice this;
     _passwords := <[prompt := password]> (_passwords this);
     _onDidChange := _onDidChange this |}.

End SessionState.

(** ** The world the sync functions act on *)

Record Error := { message : jsstring }.

(** The token [withProgress] hands to its task; the parameter [token?] of the
    sync functions is an [option] of it. *)
Inductive CancellationToken := progressToken.

(** Which function spawned a child process: [runRsyncCommandWithOutput]
    (output captured) or [runRsyncCommand] (output streamed). *)
Inductive runner := captured | streamed.

(** What the extension does to its surroundings, in the order it does it. *)
Inductive action :=
| AppendLine (line : jsstring)
| Append (text : jsstring)
| Spawn (by_ : runner) (args : list jsstring) (env : gmap jsstring jsstring)
| Kill (by_ : runner)
| ShowWarningMessage (msg item : jsstring) (picked : option jsstring)
| ShowInformationMessage (msg : jsstring)
| ShowErrorMessage (msg : jsstring)
| SetStatusBarMessage (msg : jsstring) (hideAfter : N).

Record state := {
  trace : list action;
  isCancellationRequested : bool;
  process_env : gmap jsstring jsstring
}.

Definition log (a : action) (st : state) : state :=
  {| trace := trace st ++ [a];
     isCancellationRequested := isCancellationRequested st;
     process_env := process_env st |}.

(** The token is signalled: its flag is set before its listeners run. *)
Definition signal (st : state) : state :=
  {| trace := trace st;
     isCancellationRequested := true;
     process_env := process_env st |}.

(** What reaches the handlers registered on a child process and on the
    token while the process runs. *)
Inductive event :=
| stdout_data (data : jsstring)
| stderr_data (data : jsstring)
| close (code : option Z)
| error (err : Error)
| cancellationRequested.

(** ** Promises: settled at most once *)

Inductive promise (A : Type) :=
| pending
| fulfilled (value : A)
| rejected (reason : Error).
Arguments pending {A}.
Arguments fulfilled {A} value.
Arguments rejected {A} reason.

Definition resolve {A} (value : A) (p : promise A) : promise A :=
  match p with pending => fulfilled value | _ => p end.

Definition reject {A} (reason : Error) (p : promise A) : promise A :=
  match p with pending => rejected reason | _ => p end.

Definition is_settled {A} (p : promise A) : bool :=
  match p with pending => false | _ => true end.

(** How an [await] ends: with a value, with an exception, or never. *)
Inductive completion (A : Type) :=
| Return (value : A)
| Throw (reason : Error)
| Never.
Arguments Return {A} value.
Arguments Throw {A} reason.
Arguments Never {A}.

Definition await {A} (p : promise A) : completion A :=
  match p with
  | pending => Never
  | fulfilled v => Return v
  | rejected e => Throw e
  end.

(** All events reach the handlers, in order. *)
Definition deliver {S} (on : S -> event -> S) (evs : list event) (s : S) : S :=
  fold_left on evs s.

(** The events up to the one that settles the promise: what has happened
    when the awaiting function resumes.  Later events of the list reach
    handlers that can no longer change the promise ([deliver_settled]); they
    are not followed further. *)
Fixpoint until_settled {S A} (p : S -> promise A) (on : S -> event -> S)
    (evs : list event) (s : S) : S :=
  match evs with
  | [] => s
  | ev :: evs' =>
      let s' := on s ev in
      if is_settled (p s') then s' else until_settled p on evs' s'
  end.

(** ** Asynchronous functions: state passing with exceptions *)

Definition M (A : Type) : Type := state -> completion A * state.

Definition ret {A} (a : A) : M A := fun st => (Return a, st).

Definition bind {A B} (m : M A) (k : A -> M B) : M B :=
  fun st =>
    match m st with
    | (Return a, st') => k a st'
    | (Throw e, st') => (Throw e, st')
    | (Never, st') => (Never, st')
    end.

Definition throw {A} (e : Error) : M A := fun st => (Throw e, st).

Definition try_catch {A} (body : M A) (handler : Error -> M A) : M A :=
  fun st =>
    match body st with
    | (Throw e, st') => handler e st'
    | r => r
    end.

Declare Scope async_scope.
Delimit Scope async_scope with async.
Notation "x <- m ;; k" := (bind m (fun x => k))
  (at level 20, m at level 99, k at level 200, only parsing) : async_scope.
Notation "m ;; k" := (bind m (fun _ => k))
  (at level 100, k at level 200, only parsing, right associativity)
  : async_scope.

Definition perform (a : action) : M unit := fun st => (Return tt, log a st).

Definition appendLine (line : jsstring) : M unit := perform (AppendLine line).

Fixpoint forEach {A} (xs : list A) (f : A -> M unit) : M unit :=
  match xs with
  | [] => ret tt
  | x :: xs' => bind (f x) (fun _ => forEach xs' f)
  end.

(** [token?.isCancellationRequested]: [undefined], hence falsy, without a
    token. *)
Definition cancellationRequested_on (token : option CancellationToken)
  : M bool :=
  fun st =>
    match token with
    | Some _ => (Return (isCancellationRequested st), st)
    | None => (Return false, st)
    end.

(** ** [runRsyncCommandWithOutput] *)

(** [`${code}`] for [code: number | null] *)
Definition string_of_code (code : option Z) : jsstring :=
  match code with
  | Some n => string_of_Z n
  | None => str "null"
  end.

(** [a || b] on a string [a]: the empty string is falsy. *)
Definition or_else (a b : jsstring) : jsstring :=
  match a with [] => b | _ => a end.

(** [{ ...process.env, ...env }] *)
Definition spawn_env (env : option (gmap jsstring jsstring)) (st : state)
  : gmap jsstring jsstring :=
  default ∅ env ∪ process_env st.

Record capture := {
  c_stdout : jsstring;
  c_stderr : jsstring;
  c_promise : promise jsstring;
  c_state : state
}.

(** The body of the promise executor up to the registration of the
    handlers. *)
Definition withOutput_start (args : list jsstring)
    (env : option (gmap jsstring jsstring)) (st : state) : capture :=
  {| c_stdout := []; c_stderr := []; c_promise := pending;
     c_state := log (Spawn captured args (spawn_env env st)) st |}.

(** The handlers: [token.onCancellationRequested], [proc.stdout.on('data')],
    [proc.stderr.on('data')], [proc.on('close')], [proc.on('error')]. *)
Definition withOutput_on (token : option CancellationToken)
    (c : capture) (ev : event) : capture :=
  match ev with
  | cancellationRequested =>
      match token with
      | Some _ =>
          {| c_stdout := c_stdout c; c_stderr := c_stderr c;
             c_promise :=
               reject {| message := str "Operation cancelled" |} (c_promise c);
             c_state := log (Kill captured) (signal (c_state c)) |}
      | None => c
      end
  | stdout_data data =>
      {| c_stdout := c_stdout c ++ data; c_stderr := c_stderr c;
         c_promise := c_promise c; c_state := c_state c |}
  | stderr_data data =>
      {| c_stdout := c_stdout c; c_stderr := c_stderr c ++ data;
         c_promise := c_promise c; c_state := c_state c |}
  | close code =>
      {| c_stdout := c_stdout c; c_stderr := c_stderr c;
         c_promise :=
           if bool_decide (code = Some 0%Z)
           then resolve (c_stdout c) (c_promise c)
           else reject
                  {| message :=
                       or_else (c_stderr c)
                         (str "rsync exited with code " ++ string_of_code code) |}
                  (c_promise c);
         c_state := c_state c |}
  | error err =>
      {| c_stdout := c_stdout c; c_stderr := c_stderr c;
         c_promise := reject err (c_promise c); c_state := c_state c |}
  end.

(** The promise once every event has been handled. *)
Definition withOutput_promise (args : list jsstring)
    (token : option CancellationToken)
    (env : option (gmap jsstring jsstring)) (evs : list event) (st : state)
  : capture :=
  deliver (withOutput_on token) evs (withOutput_start args env st).

(** [await runRsyncCommandWithOutput(args, token, env)] while the process
    and the token emit [evs]. *)
Definition runRsyncCommandWithOutput (args : list jsstring)
    (token : option CancellationToken)
    (env : option (gmap jsstring jsstring)) (evs : list event) : M jsstring :=
  fun st =>
    let c := until_settled c_promise (withOutput_on token) evs
               (withOutput_start args env st) in
    (await (c_promise c), c_state c).

(** ** [runRsyncCommand] *)

Record stream := {
  s_promise : promise unit;
  s_state : state
}.

Definition CHECK : N := 10004.
Definition CROSS : N := 10006.

Definition command_start (args : list jsstring) (operationName : jsstring)
    (env : option (gmap jsstring jsstring)) (st : state) : stream :=
  let st := log (AppendLine (str "Running: rsync " ++ join (str " ") args)) st in
  let st := log (AppendLine []) st in
  {| s_promise := pending;
     s_state := log (Spawn streamed args (spawn_env env st)) st |}.

Definition command_on (operationName : jsstring)
    (token : option CancellationToken) (s : stream) (ev : event) : stream :=
  match ev with
  | cancellationRequested =>
      match token with
      | Some _ =>
          let st := signal (s_state s) in
          let st := log (AppendLine []) st in
          let st :=
            log (AppendLine
                   (CROSS :: str " " ++ operationName ++ str " cancelled by user."))
              st in
          {| s_promise := s_promise s; s_state := log (Kill streamed) st |}
      | None => s
      end
  | stdout_data data =>
      {| s_promise := s_promise s; s_state := log (Append data) (s_state s) |}
  | stderr_data data =>
      {| s_promise := s_promise s; s_state := log (Append data) (s_state s) |}
  | close code =>
      let st := log (AppendLine []) (s_state s) in
      if bool_decide (code = Some 0%Z) then
        let st :=
          log (AppendLine
                 (CHECK :: str " " ++ operationName
                  ++ str " completed successfully.")) st in
        let st :=
          log (SetStatusBarMessage
                 (operationName ++ str " completed successfully.") 5000) st in
        {| s_promise := resolve tt (s_promise s); s_state := st |}
      else
        let st :=
          log (AppendLine
                 (CROSS :: str " " ++ operationName ++ str " failed with code "
                  ++ string_of_code code ++ str ".")) st in
        let st := log (ShowErrorMessage (operationName ++ str " failed.")) st in
        {| s_promise :=
             reject
               {| message :=
                    operationName ++ str " failed with code "
                    ++ string_of_code code |}
               (s_promise s);
           s_state := st |}
  | error err =>
      let st := log (AppendLine (str "Error: " ++ message err)) (s_state s) in
      {| s_promise := reject err (s_promise s); s_state := st |}
  end.

Definition command_promise (args : list jsstring) (operationName : jsstring)
    (token : option CancellationToken)
    (env : option (gmap jsstring jsstring)) (evs : list event) (st : state)
  : stream :=
  deliver (command_on operationName token) evs
    (command_start args operationName env st).

(** [await runRsyncCommand(outputChannel, args, operationName, token, env)]
    while the process and the token emit [evs]. *)
Definition runRsyncCommand (args : list jsstring) (operationName : jsstring)
    (token : option CancellationToken)
    (env : option (gmap jsstring jsstring)) (evs : list event) : M unit :=
  fun st =>
    let s := until_settled s_promise (command_on operationName token) evs
               (command_start args operationName env st) in
    (await (s_promise s), s_state s).

(** ** [runSafeSync] and [runFullSync] *)

Definition BAR : jsstring := repeat 9552 59.

(** What happens around one Full Sync: the events of the trial run, whether
    the token is signalled while the modal warning is open, the item picked
    there ([None] when the warning is dismissed), the events of the real
    run. *)
Record surroundings := {
  trial_events : list event;
  cancelled_at_prompt : bool;
  picked_item : option jsstring;
  sync_events : list event
}.

(** [await vscode.window.showWarningMessage(msg, { modal: true }, item)].
    A token signalled meanwhile has its flag set; the listener the trial run
    left on it kills a process that has exited and rejects a promise that is
    settled, which changes nothing. *)
Definition showWarningMessage (msg item : jsstring)
    (token : option CancellationToken) (w : surroundings)
  : M (option jsstring) :=
  fun st =>
    let st := log (ShowWarningMessage msg item (picked_item w)) st in
    (Return (picked_item w),
     if cancelled_at_prompt w && bool_decide (is_Some token)
     then signal st else st).

Section Sync.
Local Open Scope async_scope.
Variable pl : platform.

Definition runSafeSync (host : jsstring) (mapping : Mapping)
    (token : option CancellationToken)
    (env : option (gmap jsstring jsstring)) (evs : list event) : M unit :=
  let src := ensureTrailingSlash pl (local mapping) in
  let dest := (host ++ str ":" ++ remote mapping)%list in
  appendLine [] ;;
  appendLine BAR ;;
  appendLine (str ">>> Syncing (Safe Mode): " ++ local mapping ++ str " -> "
              ++ host ++ str ":" ++ remote mapping)%list ;;
  appendLine (str "Files missing locally will NOT be deleted on the server.") ;;
  appendLine BAR ;;
  let args := buildRsyncArgs (excludes mapping) false in
  let args := push args [src; dest] in
  runRsyncCommand args (str "Safe sync") token env evs.

Definition runFullSync (host : jsstring) (mapping : Mapping)
    (token : option CancellationToken)
    (env : option (gmap jsstring jsstring)) (w : surroundings) : M unit :=
  let src := ensureTrailingSlash pl (local mapping) in
  let dest := (host ++ str ":" ++ remote mapping)%list in
  appendLine [] ;;
  appendLine BAR ;;
  appendLine (str ">>> Full Sync (Full Mode): " ++ local mapping ++ str " -> "
              ++ host ++ str ":" ++ remote mapping)%list ;;
  appendLine (str "Checking for files to delete on remote...") ;;
  appendLine BAR ;;
  let dryRunArgs := buildRsyncArgs (excludes mapping) true in
  let dryRunArgs := push dryRunArgs [str "--dry-run"; src; dest] in
  try_catch
    (cancelled <- cancellationRequested_on token ;;
     if cancelled : bool then ret tt else
     dryRunOutput <-
       runRsyncCommandWithOutput dryRunArgs token env (trial_events w) ;;
     let filesToDelete := parseDeletedFiles dryRunOutput in
     let execute_real_sync : M unit :=
       (cancelled <- cancellationRequested_on token ;;
        if cancelled : bool then ret tt else
        let syncArgs := buildRsyncArgs (excludes mapping) true in
        let syncArgs := push syncArgs [src; dest] in
        runRsyncCommand syncArgs (str "Full sync") token env (sync_events w)) in
     if (0 <? length filesToDelete)%nat then
       appendLine [] ;;
       appendLine ([9888; 65039]
                   ++ str "  WARNING! The following files will be DELETED on the server:")%list ;;
       forEach filesToDelete (fun f => appendLine (str "  - " ++ f)%list) ;;
       appendLine [] ;;
       appendLine (str "Total files to delete: "
                   ++ string_of_nat (length filesToDelete))%list ;;
       confirm <-
         showWarningMessage
           (string_of_nat (length filesToDelete)
            ++ str " file(s) will be DELETED on the server. (See WWSync output for details)"
            ++ [LF] ++ str "Continue?")%list
           (str "Yes, delete") token w ;;
       if bool_decide (confirm <> Some (str "Yes, delete")) then
         appendLine (str "Operation cancelled.") ;;
         perform (ShowInformationMessage (str "Full sync cancelled.")) ;;
         ret tt
       else execute_real_sync
     else
       appendLine (CHECK :: str " No files need to be deleted.") ;;
       execute_real_sync)
    (fun error =>
       appendLine (str "Error: " ++ message error)%list ;;
       throw error).

End Sync.

(** A fresh run: nothing done yet. *)
Definition start (cancelled : bool) (penv : gmap jsstring jsstring) : state :=
  {| trace := []; isCancellationRequested := cancelled; process_env := penv |}.

(** ** Vocabulary of the statements *)

Definition is_data (ev : event) : bool :=
  match ev with
  | stdout_data _ | stderr_data _ => true
  | _ => false
  end.

(** The text a process wrote to each of its streams. *)
Definition stdout_of (evs : list event) : jsstring :=
  concat (omap (fun ev => match ev with stdout_data d => Some d | _ => None end)
            evs).

Definition stderr_of (evs : list event) : jsstring :=
  concat (omap (fun ev => match ev with stderr_data d => Some d | _ => None end)
            evs).

Definition is_spawn (a : action) : bool :=
  match a with Spawn _ _ _ => true | _ => false end.

(** The real, mutating run is the one [runRsyncCommand] spawns. *)
Definition is_real_run (a : action) : bool :=
  match a with Spawn streamed _ _ => true | _ => false end.

Definition is_confirmation (a : action) : bool :=
  match a with ShowWarningMessage _ _ _ => true | _ => false end.

(** How the trial run ends given the events of [w], whatever its arguments,
    its environment and the state it starts in. *)
Definition trial_ends (token : option CancellationToken) (w : surroundings)
    (c : completion jsstring) : Prop :=
  forall args env st,
    (runRsyncCommandWithOutput args token env (trial_events w) st).1 = c.

(** No cancellation was requested before the invocation. *)
Definition not_cancelled (token : option CancellationToken) (st : state)
  : Prop :=
  token = None \/ isCancellationRequested st = false.

(** The text of the modal warning for [n] files. *)
Definition confirmation_message (n : nat) : jsstring :=
  string_of_nat n
  ++ str " file(s) will be DELETED on the server. (See WWSync output for details)"
  ++ [LF] ++ str "Continue?".

(** The five lines [runFullSync] opens with. *)
Definition fullSync_banner (host : jsstring) (mapping : Mapping)
  : list action :=
  [ AppendLine [];
    AppendLine BAR;
    AppendLine (str ">>> Full Sync (Full Mode): " ++ local mapping ++ str " -> "
                ++ host ++ str ":" ++ remote mapping);
    AppendLine (str "Checking for files to delete on remote...");
    AppendLine BAR ].

(** The deletion list as it is written to the output channel. *)
Definition deletion_listing (files : list jsstring) : list action :=
  [ AppendLine [];
    AppendLine ([9888; 65039]
                ++ str "  WARNING! The following files will be DELETED on the server:") ]
  ++ map (fun f => AppendLine (str "  - " ++ f)) files
  ++ [ AppendLine [];
       AppendLine (str "Total files to delete: " ++ string_of_nat (length files)) ].

(** What the handlers of a running process may do: write to the output
    channel, kill the process, show an error, set the status bar. *)
Definition from_handler (a : action) : bool :=
  match a with
  | Spawn _ _ _ | ShowWarningMessage _ _ _ | ShowInformationMessage _ => false
  | _ => true
  end.

(** Several actions, in order. *)
Definition log_all (acts : list action) (st : state) : state :=
  fold_left (fun st a => log a st) acts st.

(** The rest of [runFullSync] once the gate is passed: the second look at the
    token, the real run, and the [catch] clause around it. *)
Definition real_run (pl : platform) (host : jsstring) (mapping : Mapping)
    (token : option CancellationToken)
    (env : option (gmap jsstring jsstring)) (w : surroundings) (st : state)
  : completion unit * state :=
  if bool_decide (is_Some token) && isCancellationRequested st
  then (Return tt, st)
  else match runRsyncCommand (syncArgs pl host mapping) (str "Full sync")
               token env (sync_events w) st with
       | (Throw e, st') =>
           (Throw e, log (AppendLine (str "Error: " ++ message e)) st')
       | r => r
       end.

(** *** The ways a Full Sync can go *)

(** The command line written to the channel and the spawn of the real run. *)
Definition real_run_start (pl : platform) (host : jsstring)
    (mapping : Mapping) (env : option (gmap jsstring jsstring)) (st : state)
  : list action :=
  [ AppendLine
      (str "Running: rsync " ++ join (str " ") (syncArgs pl host mapping));
    AppendLine [];
    Spawn streamed (syncArgs pl host mapping) (spawn_env env st) ].

(** Everything up to and including the modal warning. *)
Definition asked (pl : platform) (host : jsstring) (mapping : Mapping)
    (env : option (gmap jsstring jsstring)) (w : surroundings) (st : state)
    (files : list jsstring) : list action :=
  fullSync_banner host mapping
  ++ [Spawn captured (dryRunArgs pl host mapping) (spawn_env env st)]
  ++ deletion_listing files
  ++ [ShowWarningMessage (confirmation_message (length files))
        (str "Yes, delete") (picked_item w)].

Section Flow.

Variables (pl : platform) (host : jsstring) (mapping : Mapping).
Variables (token : option CancellationToken).
Variables (env : option (gmap jsstring jsstring)).
Variables (w : surroundings) (st : state).

(** [mirror_flow c acts]: the invocation ends as [c] after doing [acts]. *)
Inductive mirror_flow : completion unit -> list action -> Prop :=
| flow_cancelled_before :
    token <> None -> isCancellationRequested st = true ->
    mirror_flow (Return tt) (fullSync_banner host mapping)
| flow_trial_pending :
    not_cancelled token st -> trial_ends token w Never ->
    mirror_flow Never
      (fullSync_banner host mapping
       ++ [Spawn captured (dryRunArgs pl host mapping) (spawn_env env st)])
| flow_trial_failed e kill :
    not_cancelled token st -> trial_ends token w (Throw e) ->
    kill = [] \/ kill = [Kill captured] ->
    mirror_flow (Throw e)
      (fullSync_banner host mapping
       ++ [Spawn captured (dryRunArgs pl host mapping) (spawn_env env st)]
       ++ kill ++ [AppendLine (str "Error: " ++ message e)])
| flow_nothing_to_delete out c rest :
    not_cancelled token st -> trial_ends token w (Return out) ->
    parseDeletedFiles out = [] ->
    forallb from_handler rest = true ->
    mirror_flow c
      (fullSync_banner host mapping
       ++ [Spawn captured (dryRunArgs pl host mapping) (spawn_env env st);
           AppendLine (CHECK :: str " No files need to be deleted.")]
       ++ real_run_start pl host mapping env st ++ rest)
| flow_declined out :
    not_cancelled token st -> trial_ends token w (Return out) ->
    parseDeletedFiles out <> [] ->
    picked_item w <> Some (str "Yes, delete") ->
    mirror_flow (Return tt)
      (asked pl host mapping env w st (parseDeletedFiles out)
       ++ [AppendLine (str "Operation cancelled.");
           ShowInformationMessage (str "Full sync cancelled.")])
| flow_cancelled_at_prompt out :
    not_cancelled token st -> trial_ends token w (Return out) ->
    parseDeletedFiles out <> [] ->
    picked_item w = Some (str "Yes, delete") ->
    token <> None -> cancelled_at_prompt w = true ->
    mirror_flow (Return tt)
      (asked pl host mapping env w st (parseDeletedFiles out))
| flow_confirmed out c rest :
    not_cancelled token st -> trial_ends token w (Return out) ->
    parseDeletedFiles out <> [] ->
    picked_item w = Some (str "Yes, delete") ->
    forallb from_handler rest = true ->
    mirror_flow c
      (asked pl host mapping env w st (parseDeletedFiles out)
       ++ real_run_start pl host mapping env st ++ rest).

End Flow.

(** ** The earlier revision of [rsync.ts]

    [rsync.ts] as it was before the sync functions took a token and an
    environment, and before the fix the change log records for 0.0.3 (file
    path parsing in the list of deleted files).  Its parser differs from the
    one above in what it pushes: the whole trimmed line. *)

Module Earlier.

Definition parseDeletedFiles (output : jsstring) : list jsstring :=
  let lines := split LF output in
  fold_left
    (fun files line =>
       let trimmed := trim line in
       if startsWith trimmed (str "deleting ")
       then push files [trimmed]
       else files)
    lines [].

End Earlier.

(** ** Examples *)

(** A project, a host and four ways a Full Sync can go, for the examples. *)
Definition example_mapping : Mapping :=
  {| local := str "/proj"; remote := str "/var/www/proj";
     excludes := [str ".git"; str "node_modules"] |}.

Definition example_host : jsstring := str "user@10.0.0.5".

Definition confirmed_sync : surroundings :=
  {| trial_events :=
       [stdout_data (str "deleting old/file.txt" ++ [LF]
                     ++ str "sent 120 bytes  received 35 bytes");
        close (Some 0%Z)];
     cancelled_at_prompt := false;
     picked_item := Some (str "Yes, delete");
     sync_events := [stdout_data (str "deleting old/file.txt");
                     close (Some 0%Z)] |}.

Definition declined_sync : surroundings :=
  {| trial_events := trial_events confirmed_sync;
     cancelled_at_prompt := false;
     picked_item := None;
     sync_events := [] |}.

Definition clean_sync : surroundings :=
  {| trial_events :=
       [stdout_data (str "sending incremental file list"); close (Some 0%Z)];
     cancelled_at_prompt := false;
     picked_item := None;
     sync_events := [close (Some 0%Z)] |}.

Definition failed_trial : surroundings :=
  {| trial_events :=
       [stderr_data (str "rsync error: some files could not be transferred");
        close (Some 23%Z)];
     cancelled_at_prompt := false;
     picked_item := Some (str "Yes, delete");
     sync_events := [close (Some 0%Z)] |}.

(** ** The rest of the extension

    What follows embeds the code around the sync functions: the selection of
    a server and of a mapping ([serverSelector.ts]), the password relay
    ([askPass.ts]) and the look-up of the status bar ([statusBar.ts]). *)

Definition COMMA : N := 44.
Definition CR : N := 13.

(** A string in a condition: the empty string is falsy. *)
Definition truthy (s : jsstring) : bool :=
  match s with [] => false | _ => true end.

(** The chunks a process wrote, of both streams, in their order of arrival. *)
Definition data_of (evs : list event) : list jsstring :=
  omap (fun ev => match ev with
                  | stdout_data d | stderr_data d => Some d
                  | _ => None
                  end) evs.

(** What the [close] handler of [runRsyncCommand] does to the channel and
    the window. *)
Definition close_actions (operationName : jsstring) (code : option Z)
  : list action :=
  if bool_decide (code = Some 0%Z) then
    [ AppendLine [];
      AppendLine (CHECK :: str " " ++ operationName
                  ++ str " completed successfully.");
      SetStatusBarMessage (operationName ++ str " completed successfully.")
        5000 ]
  else
    [ AppendLine [];
      AppendLine (CROSS :: str " " ++ operationName ++ str " failed with code "
                  ++ string_of_code code ++ str ".");
      ShowErrorMessage (operationName ++ str " failed.") ].

(** The five lines [runSafeSync] opens with. *)
Definition safeSync_banner (host : jsstring) (mapping : Mapping)
  : list action :=
  [ AppendLine [];
    AppendLine BAR;
    AppendLine (str ">>> Syncing (Safe Mode): " ++ local mapping ++ str " -> "
                ++ host ++ str ":" ++ remote mapping);
    AppendLine (str "Files missing locally will NOT be deleted on the server.");
    AppendLine BAR ].

(** The command line written to the channel and the spawn of [runSafeSync]. *)
Definition safe_run_start (pl : platform) (host : jsstring)
    (mapping : Mapping) (env : option (gmap jsstring jsstring)) (st : state)
  : list action :=
  [ AppendLine
      (str "Running: rsync " ++ join (str " ") (safeArgs pl host mapping));
    AppendLine [];
    Spawn streamed (safeArgs pl host mapping) (spawn_env env st) ].

(** The gate of a Full Sync is open: nothing to delete, or [Yes, delete]
    picked with no cancellation while the warning was up. *)
Definition gate_open (token : option CancellationToken) (w : surroundings)
    (out : jsstring) : Prop :=
  parseDeletedFiles out = []
  \/ (picked_item w = Some (str "Yes, delete")
      /\ (cancelled_at_prompt w = false \/ token = None)).

(** *** [config.ts]: servers *)

Module Config.

Record ServerConfig := {
  host : jsstring;
  shell : option jsstring;
  mappings : list Mapping
}.

(** [servers] is an object used as a dictionary; it is kept here as the list
    of its own properties in the order [Object.entries] gives them.  A
    well-formed value has each name once. *)
Record WWConfig := {
  servers : list (jsstring * ServerConfig)
}.

(** [config.servers[name]] when [name] is an own property. *)
Fixpoint own (name : jsstring) (servers : list (jsstring * ServerConfig))
  : option ServerConfig :=
  match servers with
  | [] => None
  | (n, serverConfig) :: servers' =>
      if bool_decide (n = name) then Some serverConfig else own name servers'
  end.

End Config.

(** *** [serverSelector.ts] *)

Module Selector.

(** What the selector does to the window and to [~/.wwsync]. *)
Inductive ui :=
| InformationMessage (msg : jsstring)
| InputBox (prompt placeHolder : jsstring) (answer : option jsstring)
| SaveConfig (config : Config.WWConfig).

(** The values the two input boxes of [selectOrCreateMapping] return:
    [None] when the box is dismissed. *)
Record mapping_answers := {
  remotePath_input : option jsstring;
  excludes_input : option jsstring
}.

(** A call ends with a value or with the [TypeError] JavaScript raises on
    reading a property of [undefined]. *)
Inductive outcome (A : Type) :=
| Done (a : A)
| TypeError.
Arguments Done {A} a.
Arguments TypeError {A}.

(** [excludesInput ? excludesInput.split(',').map(e => e.trim()).filter(e => e) : []] *)
Definition excludes_of (excludesInput : option jsstring) : list jsstring :=
  match excludesInput with
  | Some input =>
      if truthy input
      then List.filter truthy (map trim (split COMMA input))
      else []
  | None => []
  end.

(** [serverConfig.mappings.push(newMapping)] on the server [serverAlias]. *)
Fixpoint push_mapping (serverAlias : jsstring) (newMapping : Mapping)
    (servers : list (jsstring * Config.ServerConfig))
  : list (jsstring * Config.ServerConfig) :=
  match servers with
  | [] => []
  | (n, serverConfig) :: servers' =>
      if bool_decide (n = serverAlias) then
        (n, {| Config.host := Config.host serverConfig;
               Config.shell := Config.shell serverConfig;
               Config.mappings :=
                 push (Config.mappings serverConfig) [newMapping] |})
        :: servers'
      else (n, serverConfig) :: push_mapping serverAlias newMapping servers'
  end.

Section Paths.

(** [path.normalize] and [String.prototype.toLowerCase], of Node and of the
    language. *)
Variables path_normalize toLowerCase : jsstring -> jsstring.

Definition normalizePath (p : jsstring) : jsstring :=
  toLowerCase (path_normalize p).

(** The inner loop of [findServersForPath]: push the name at the first
    mapping that matches, and [break]. *)
Fixpoint scan_mappings (normalizedPath name : jsstring)
    (mappings : list Mapping) (matches : list jsstring) : list jsstring :=
  match mappings with
  | [] => matches
  | mapping :: mappings' =>
      if bool_decide (normalizePath (local mapping) = normalizedPath)
      then push matches [name]
      else scan_mappings normalizedPath name mappings' matches
  end.

Definition findServersForPath (config : Config.WWConfig)
    (localPath : jsstring) : list jsstring :=
  let normalizedPath := normalizePath localPath in
  fold_left
    (fun matches entry =>
       scan_mappings normalizedPath entry.1 (Config.mappings entry.2) matches)
    (Config.servers config) [].

Definition selectOrCreateMapping (config : Config.WWConfig)
    (serverAlias currentPath : jsstring) (answers : mapping_answers)
  : outcome (option (Config.WWConfig * Mapping)) * list ui :=
  match Config.own serverAlias (Config.servers config) with
  | None => (TypeError, [])
  | Some serverConfig =>
      let normalizedPath := normalizePath currentPath in
      match List.find
              (fun m => bool_decide (normalizePath (local m) = normalizedPath))
              (Config.mappings serverConfig) with
      | Some existingMapping => (Done (Some (config, existingMapping)), [])
      | None =>
          let shown :=
            [ InformationMessage
                (str "No sync configuration found for this folder on '"
                 ++ serverAlias ++ str "'. Let's create one.");
              InputBox (str "Enter remote destination path")
                (str "/var/www/my-app") (remotePath_input answers) ] in
          match remotePath_input answers with
          | None => (Done None, shown)
          | Some remotePath =>
              if negb (truthy remotePath) then (Done None, shown)
              else
                let excludes := excludes_of (excludes_input answers) in
                let newMapping :=
                  {| local := currentPath; remote := remotePath;
                     excludes := excludes |} in
                let config' :=
                  {| Config.servers :=
                       push_mapping serverAlias newMapping
                         (Config.servers config) |} in
                (Done (Some (config', newMapping)),
                 shown
                 ++ [ InputBox
                        (str "Enter exclusions separated by commas (e.g. .git, node_modules)")
                        (str ".git, node_modules, build, .env, *.log")
                        (excludes_input answers);
                      SaveConfig config';
                      InformationMessage (str "Configuration saved!") ])
          end
      end
  end.

(** The server has a mapping for the folder. *)
Definition maps_folder (folder : jsstring) (serverConfig : Config.ServerConfig)
  : bool :=
  existsb
    (fun m => bool_decide (normalizePath (local m) = normalizePath folder))
    (Config.mappings serverConfig).

End Paths.

End Selector.

(** *** [statusBar.ts]: the server shown for a folder *)

Module StatusBar.

Section Paths.

Variables path_normalize toLowerCase : jsstring -> jsstring.

(** [getServerForCurrentFolder].  [loadConfig ()] reads [~/.wwsync]; what it
    returns ([inl]) or throws ([inr]) there is the argument [loadConfig]. *)
Definition getServerForCurrentFolder
    (loadConfig : Config.WWConfig + Error) (currentPath : jsstring)
    (sessionState : SessionState.t)
  : completion (option jsstring) * SessionState.t :=
  let sessionServer := SessionState.get currentPath sessionState in
  let from_config :=
    match loadConfig with
    | inl config =>
        let servers :=
          Selector.findServersForPath path_normalize toLowerCase config
            currentPath in
        match servers with
        | [singleServer] =>
            (Return (Some singleServer),
             SessionState.set currentPath singleServer sessionState)
        | _ => (Return None, sessionState)
        end
    | inr e => (Throw e, sessionState)
    end in
  match sessionServer with
  | Some server =>
      if truthy server then (Return (Some server), sessionState)
      else from_config
  | None => from_config
  end.

End Paths.

End StatusBar.

(** *** [askPass.ts]: the handler of a password request *)

Module AskPass.

(** [res.writeHead(statusCode); res.end(payload)] *)
Record Response := {
  statusCode : N;
  payload : jsstring
}.

(** What [req.on('end', ...)] does with the request body once it is
    complete.  [answer] is what the input box returns if it is shown: the
    text entered, or [None] when the box is dismissed.  The result holds the
    response, the prompt of the input box if one was shown, and the session
    state. *)
Definition onEnd (body : jsstring) (answer : option jsstring)
    (sessionState : SessionState.t)
  : Response * option jsstring * SessionState.t :=
  let promptText := or_else (trim body) (str "Password required:") in
  let cached := SessionState.getPassword promptText sessionState in
  let ask :=
    match answer with
    | Some password =>
        ({| statusCode := 200; payload := password |}, Some promptText,
         SessionState.setPassword promptText password sessionState)
    | None =>
        ({| statusCode := 404; payload := [] |}, Some promptText, sessionState)
    end in
  match cached with
  | Some c =>
      if truthy c
      then ({| statusCode := 200; payload := c |}, None, sessionState)
      else ask
  | None => ask
  end.

End AskPass.

(** *** More examples *)

Definition cancelled_while_asked : surroundings :=
  {| trial_events := trial_events confirmed_sync;
     cancelled_at_prompt := true;
     picked_item := Some (str "Yes, delete");
     sync_events := sync_events confirmed_sync |}.

Definition failing_sync : surroundings :=
  {| trial_events := trial_events clean_sync;
     cancelled_at_prompt := false;
     picked_item := None;
     sync_events :=
       [stdout_data (str "sending incremental file list");
        stderr_data (str "rsync: connection unexpectedly closed");
        close (Some 12%Z)] |}.

Definition example_config : Config.WWConfig :=
  {| Config.servers :=
       [ (str "prod",
          {| Config.host := str "deploy@prod.example.org";
             Config.shell := None;
             Config.mappings := [example_mapping] |});
         (str "staging",
          {| Config.host := str "deploy@staging.example.org";
             Config.shell := Some (str "zsh");
             Config.mappings := [] |}) ] |}.

Definition example_answers : Selector.mapping_answers :=
  {| Selector.remotePath_input := Some (str "/srv/app");
     Selector.excludes_input := Some (str ".git, node_modules,, *.log ") |}.

(** ** Facts about the string methods *)

Section StringFacts.

Implicit Types s pat rest : jsstring.

Lemma startsWith_app pat rest : startsWith (pat ++ rest) pat = true.
Proof.
  induction pat as [|p pat IH]; simpl; [done|].
  by rewrite N.eqb_refl, IH.
Qed.

Lemma startsWith_inv s pat :
  startsWith s pat = true -> s = pat ++ drop (length pat) s.
Proof.
  revert s. induction pat as [|p pat IH]; intros [|c s]; simpl; try done.
  intros [Hc Hs]%andb_prop. apply N.eqb_eq in Hc. subst c.
  f_equal. by apply IH.
Qed.

Lemma startsWith_spec s pat :
  startsWith s pat = true <-> exists rest, s = pat ++ rest.
Proof.
  split.
  - intros H. eexists. by apply startsWith_inv.
  - intros [rest ->]. apply startsWith_app.
Qed.

Lemma indexOf_startsWith s pat :
  startsWith s pat = true -> indexOf s pat = Some 0%nat.
Proof. intros H. destruct s; simpl in *; by rewrite H. Qed.

(** Replacing a pattern the string starts with cuts that prefix off and
    leaves every later occurrence alone. *)
Lemma replace_leading s pat repl :
  startsWith s pat = true ->
  replace s pat repl = repl ++ drop (length pat) s.
Proof.
  intros H. unfold replace. by rewrite (indexOf_startsWith _ _ H).
Qed.

Lemma replace_prefix pat rest : replace (pat ++ rest) pat [] = rest.
Proof.
  rewrite replace_leading by apply startsWith_app.
  simpl. by rewrite drop_app_length.
Qed.

Lemma split_nonempty sep s : split sep s <> [].
Proof.
  destruct s as [|c s]; simpl; [done|].
  destruct (c =? sep); [done|]. by destruct (split sep s).
Qed.

Lemma split_app sep s1 s2 :
  split sep (s1 ++ sep :: s2) = split sep s1 ++ split sep s2.
Proof.
  induction s1 as [|c s1 IH]; simpl.
  - by rewrite N.eqb_refl.
  - destruct (c =? sep); rewrite IH; [done|].
    pose proof (split_nonempty sep s1).
    by destruct (split sep s1).
Qed.

Lemma split_no_sep sep s : sep ∉ s -> split sep s = [s].
Proof.
  induction s as [|c s IH]; simpl; [done|].
  intros Hn. apply not_elem_of_cons in Hn as [Hc Hs].
  destruct (N.eqb_spec c sep); [congruence|].
  by rewrite IH.
Qed.

(** The pieces of [split] hold no separator, and joining them with the
    separator gives the string back: they are its lines. *)
Lemma split_pieces sep s : Forall (fun l => sep ∉ l) (split sep s).
Proof.
  induction s as [|c s IH]; simpl.
  - repeat constructor. apply not_elem_of_nil.
  - destruct (N.eqb_spec c sep) as [->|Hne].
    + constructor; [apply not_elem_of_nil | done].
    + destruct (split sep s) as [|l ls].
      * repeat constructor. apply not_elem_of_cons.
        split; [congruence | apply not_elem_of_nil].
      * inversion IH; subst. constructor; [|done].
        apply not_elem_of_cons. split; [congruence | done].
Qed.

Lemma join_split sep s : join [sep] (split sep s) = s.
Proof.
  induction s as [|c s IH]; simpl; [done|].
  pose proof (split_nonempty sep s) as Hne.
  destruct (N.eqb_spec c sep) as [->|_].
  - destruct (split sep s); [done|]. simpl in *. by rewrite IH.
  - destruct (split sep s) as [|l [|l' ls]]; [done| |]; simpl in *;
      by rewrite <- IH.
Qed.

Lemma trimStart_decompose s :
  exists l, s = l ++ trimStart s
            /\ Forall (fun c => isWhiteSpace c = true) l
            /\ (forall c, head (trimStart s) = Some c -> isWhiteSpace c = false).
Proof.
  induction s as [|c s (l & Hs & Hl & Hh)]; simpl.
  - exists []. repeat split; [constructor | done].
  - destruct (isWhiteSpace c) eqn:Hc.
    + exists (c :: l). simpl. split; [by f_equal|]. split; [by constructor | done].
    + exists []. simpl. split; [done|]. split; [constructor|].
      by intros ? [= <-].
Qed.

(** [trim] removes a run of white space at each end and nothing else; what
    is left neither starts nor ends with white space. *)
Lemma trim_decompose s :
  exists l r, s = l ++ trim s ++ r
    /\ Forall (fun c => isWhiteSpace c = true) l
    /\ Forall (fun c => isWhiteSpace c = true) r
    /\ (forall c, head (trim s) = Some c -> isWhiteSpace c = false)
    /\ (forall c, last (trim s) = Some c -> isWhiteSpace c = false).
Proof.
  destruct (trimStart_decompose s) as (l & Hs & Hl & Hh).
  destruct (trimStart_decompose (reverse (trimStart s))) as (r & Hr & Hrw & Hrh).
  exists l, (reverse r). unfold trim, trimEnd.
  assert (Ht : trimStart s
               = reverse (trimStart (reverse (trimStart s))) ++ reverse r).
  { rewrite <- reverse_app, <- Hr. by rewrite reverse_involutive. }
  split; [by rewrite <- Ht|].
  split; [done|].
  split; [by apply Forall_reverse|].
  split.
  - intros c Hc. apply Hh. rewrite Ht.
    destruct (reverse (trimStart (reverse (trimStart s)))); [done | exact Hc].
  - intros c Hc. apply Hrh. by rewrite <- last_reverse.
Qed.

End StringFacts.

(** ** The parser of the trial output *)

Section Parser.

Implicit Types output line p : jsstring.

Lemma deletion_record_Some line p :
  deletion_record line = Some p <-> trim line = str "deleting " ++ p.
Proof.
  unfold deletion_record. case_bool_decide as Ht; split.
  - intros [= <-]. by rewrite <- Ht, take_drop.
  - intros Heq. f_equal. rewrite Heq. apply (drop_app_length (str "deleting ")).
  - done.
  - intros Heq. destruct Ht. rewrite Heq.
    apply (take_app_length (str "deleting ")).
Qed.

Lemma deletion_record_startsWith line :
  deletion_record line
  = if startsWith (trim line) (str "deleting ")
    then Some (replace (trim line) (str "deleting ") [])
    else None.
Proof.
  destruct (startsWith (trim line) (str "deleting ")) eqn:Hs.
  - apply deletion_record_Some.
    rewrite replace_leading by done.
    by apply startsWith_inv in Hs.
  - destruct (deletion_record line) as [p|] eqn:Hd; [|done].
    apply deletion_record_Some in Hd.
    by rewrite Hd, startsWith_app in Hs.
Qed.

Lemma deletion_record_None line :
  deletion_record line = None
  <-> ~ exists p, trim line = str "deleting " ++ p.
Proof.
  split.
  - intros Hn [p Hp]. apply deletion_record_Some in Hp. congruence.
  - intros Hn. destruct (deletion_record line) as [p|] eqn:Hd; [|done].
    destruct Hn. exists p. by apply deletion_record_Some.
Qed.

(** The loop pushes, for each line in turn, its record if it is one. *)
Lemma parse_loop (lines : list jsstring) (files : list jsstring) :
  fold_left
    (fun files line =>
       let trimmed := trim line in
       if startsWith trimmed (str "deleting ")
       then push files [replace trimmed (str "deleting ") []]
       else files)
    lines files
  = files ++ omap deletion_record lines.
Proof.
  revert files. induction lines as [|line lines IH]; intros files; cbn.
  - by rewrite app_nil_r.
  - rewrite IH, deletion_record_startsWith. cbv zeta.
    destruct (startsWith (trim line) (str "deleting ")); [|done].
    unfold push. by rewrite <- app_assoc.
Qed.

Lemma parseDeletedFiles_parseDeletions output :
  parseDeletedFiles output = parseDeletions output.
Proof. unfold parseDeletedFiles. by rewrite parse_loop. Qed.

Lemma parseDeletedFiles_app output1 output2 :
  parseDeletedFiles (output1 ++ LF :: output2)
  = parseDeletedFiles output1 ++ parseDeletedFiles output2.
Proof.
  rewrite !parseDeletedFiles_parseDeletions. unfold parseDeletions.
  by rewrite split_app, omap_app.
Qed.

Lemma parseDeletedFiles_one_line line :
  LF ∉ line ->
  parseDeletedFiles line = match deletion_record line with
                           | Some p => [p]
                           | None => []
                           end.
Proof.
  intros Hl. rewrite parseDeletedFiles_parseDeletions. unfold parseDeletions.
  rewrite split_no_sep by done. cbn. by destruct (deletion_record line).
Qed.

End Parser.

(** C2.  For every input, [parseDeletedFiles] returns, in the order of the
    lines of the input, the remainder after ["deleting "] of every line whose
    trimmed form begins with that prefix, and nothing for any other line; a
    line [deleting a/b.txt] contributes exactly ["a/b.txt"]. *)
Theorem parseDeletedFiles_spec :
  (forall output,
     parseDeletedFiles output = omap deletion_record (split LF output))
  /\ (forall line p,
        deletion_record line = Some p <-> trim line = str "deleting " ++ p)
  /\ (forall line,
        deletion_record line = None
        <-> ~ exists p, trim line = str "deleting " ++ p)
  /\ parseDeletedFiles (str "deleting a/b.txt") = [str "a/b.txt"]
  /\ (forall before after,
        parseDeletedFiles
          (before ++ LF :: str "deleting a/b.txt" ++ LF :: after)
        = parseDeletedFiles before ++ [str "a/b.txt"]
          ++ parseDeletedFiles after).
Proof.
  split; [apply parseDeletedFiles_parseDeletions|].
  split; [apply deletion_record_Some|].
  split; [apply deletion_record_None|].
  split; [by vm_compute|].
  intros before after.
  rewrite parseDeletedFiles_app, parseDeletedFiles_app. by f_equal.
Qed.

Lemma parseDeletedFiles_spec_witness :
  deletion_record (9 :: str "deleting a/b.txt" ++ [13]) = Some (str "a/b.txt").
Proof.
  apply (proj1 (proj2 parseDeletedFiles_spec)). vm_compute. reflexivity.
Defined.

(** C8.  [parseDeletedFiles] is a function of its input alone; it handles
    the lines in their order of appearance (the result for a text is the
    result for what precedes a line break followed by the result for what
    follows it); it returns one path per deletion line, a repeated line
    twice; and it returns nothing when no line is a deletion line. *)
Theorem parseDeletedFiles_pure_ordered :
  (forall output1 output2,
     output1 = output2 -> parseDeletedFiles output1 = parseDeletedFiles output2)
  /\ (forall output1 output2,
        parseDeletedFiles (output1 ++ LF :: output2)
        = parseDeletedFiles output1 ++ parseDeletedFiles output2)
  /\ (forall output,
        length (parseDeletedFiles output)
        = length (List.filter
                    (fun line => startsWith (trim line) (str "deleting "))
                    (split LF output)))
  /\ (forall line p,
        LF ∉ line -> trim line = str "deleting " ++ p ->
        parseDeletedFiles (line ++ LF :: line) = [p; p])
  /\ (forall output,
        (forall line, line ∈ split LF output ->
                      startsWith (trim line) (str "deleting ") = false) ->
        parseDeletedFiles output = []).
Proof.
  split; [by intros ? ? ->|].
  split; [apply parseDeletedFiles_app|].
  split.
  { intros output. rewrite parseDeletedFiles_parseDeletions.
    unfold parseDeletions.
    induction (split LF output) as [|line lines IH]; cbn; [done|].
    rewrite deletion_record_startsWith.
    destruct (startsWith (trim line) (str "deleting ")); cbn; by rewrite IH. }
  split.
  { intros line p Hl Hp. apply deletion_record_Some in Hp.
    rewrite parseDeletedFiles_app, parseDeletedFiles_one_line by done.
    by rewrite Hp. }
  intros output Hnone. rewrite parseDeletedFiles_parseDeletions.
  unfold parseDeletions.
  induction (split LF output) as [|line lines IH]; cbn; [done|].
  rewrite deletion_record_startsWith, Hnone by apply list_elem_of_here.
  apply IH. intros l Hl. apply Hnone. by apply list_elem_of_further.
Qed.

Lemma parseDeletedFiles_pure_ordered_witness :
  parseDeletedFiles
    (str "deleting old/file.txt" ++ LF :: str "deleting old/file.txt")
  = [str "old/file.txt"; str "old/file.txt"]
  /\ parseDeletedFiles
       (str "sending incremental file list" ++ LF
        :: str "sent 120 bytes  received 35 bytes")
     = [].
Proof.
  destruct parseDeletedFiles_pure_ordered as (_ & _ & _ & Hdup & Hnone).
  split.
  - apply (Hdup (str "deleting old/file.txt") (str "old/file.txt")).
    + vm_compute. intros H. repeat (apply elem_of_cons in H as [H|H]; [done|]).
      by apply not_elem_of_nil in H.
    + vm_compute. reflexivity.
  - apply Hnone. vm_compute. intros line H.
    repeat (apply elem_of_cons in H as [->|H]; [reflexivity|]).
    by apply not_elem_of_nil in H.
Defined.

(** C9.  On a line whose trimmed form begins with ["deleting "],
    [parseDeletedFiles] removes that leading occurrence only: the path keeps
    every later occurrence, so the line [deleting deleting notes.txt] gives
    ["deleting notes.txt"]. *)
Theorem parseDeletedFiles_strips_leading_only :
  (forall rest,
     replace (str "deleting " ++ rest) (str "deleting ") [] = rest)
  /\ (forall line rest,
        LF ∉ line -> trim line = str "deleting " ++ rest ->
        parseDeletedFiles line = [rest])
  /\ parseDeletedFiles (str "deleting deleting notes.txt")
     = [str "deleting notes.txt"].
Proof.
  split; [intros rest; apply replace_prefix|].
  split; [|by vm_compute].
  intros line rest Hl Hr. apply deletion_record_Some in Hr.
  rewrite parseDeletedFiles_one_line by done. by rewrite Hr.
Qed.

Lemma parseDeletedFiles_strips_leading_only_witness :
  parseDeletedFiles (str "  deleting logs/deleting old.txt")
  = [str "logs/deleting old.txt"].
Proof.
  apply (proj1 (proj2 parseDeletedFiles_strips_leading_only)).
  - vm_compute. intros H.
    repeat (apply elem_of_cons in H as [H|H]; [done|]).
    by apply not_elem_of_nil in H.
  - vm_compute. reflexivity.
Defined.

(** The earlier revision kept the prefix on every path it returned. *)
Lemma earlier_parseDeletedFiles_keeps_prefix output :
  Earlier.parseDeletedFiles output
  = map (fun p => str "deleting " ++ p) (parseDeletedFiles output).
Proof.
  rewrite parseDeletedFiles_parseDeletions.
  unfold Earlier.parseDeletedFiles, parseDeletions.
  generalize (split LF output). intros lines.
  assert (forall files,
            fold_left
              (fun files line =>
                 let trimmed := trim line in
                 if startsWith trimmed (str "deleting ")
                 then push files [trimmed]
                 else files)
              lines files
            = files ++ map (fun p => str "deleting " ++ p)
                         (omap deletion_record lines)) as Hloop.
  { induction lines as [|line lines IH]; intros files; cbn.
    - by rewrite app_nil_r.
    - rewrite IH, deletion_record_startsWith. cbv zeta.
      destruct (startsWith (trim line) (str "deleting ")) eqn:Hs; [|done].
      rewrite replace_leading by done. cbn.
      rewrite <- (startsWith_inv _ _ Hs). unfold push.
      by rewrite <- app_assoc. }
  apply (Hloop []).
Qed.

(** ** The argument vectors *)

Section ArgumentVectors.

Implicit Types p : jsstring.

Lemma exclude_loop (patterns args : list jsstring) :
  fold_left (fun args exc => push args [str "--exclude"; exc]) patterns args
  = args ++ excludeDirectives patterns.
Proof.
  revert args. induction patterns as [|exc patterns IH]; intros args; cbn.
  - by rewrite app_nil_r.
  - rewrite IH. unfold push. by rewrite <- app_assoc.
Qed.

Lemma buildRsyncArgs_spec (patterns : list jsstring) (withDelete : bool) :
  buildRsyncArgs patterns withDelete
  = [str "-avzP"] ++ excludeDirectives patterns
    ++ (if withDelete then [str "--delete"] else []).
Proof.
  unfold buildRsyncArgs. rewrite exclude_loop. unfold push.
  destruct withDelete; [done | by rewrite app_nil_r].
Qed.

Lemma excludeDirectives_length (patterns : list jsstring) :
  length (excludeDirectives patterns) = (2 * length patterns)%nat.
Proof.
  induction patterns as [|x patterns IH]; [done|].
  change (excludeDirectives (x :: patterns))
    with (str "--exclude" :: x :: excludeDirectives patterns).
  cbn [length]. lia.
Qed.

Lemma excludeDirectives_lookup (patterns : list jsstring) (i : nat) p :
  patterns !! i = Some p ->
  excludeDirectives patterns !! (2 * i)%nat = Some (str "--exclude")
  /\ excludeDirectives patterns !! (2 * i + 1)%nat = Some p.
Proof.
  revert i. induction patterns as [|x patterns IH]; intros [|i] Hi; try done.
  replace (2 * S i)%nat with (S (S (2 * i))) by lia. by apply IH.
Qed.

Lemma endsWith_singleton p (c : N) :
  endsWith p [c] = true <-> last p = Some c.
Proof.
  unfold endsWith. destruct p as [|x q _] using rev_ind; [done|].
  rewrite length_app, last_snoc. cbn [length].
  replace (length q + 1 - 1)%nat with (length q) by lia.
  rewrite drop_app_length.
  replace (1 <=? length q + 1)%nat with true by (symmetry; apply Nat.leb_le; lia).
  cbn. rewrite andb_true_r, N.eqb_eq. split; congruence.
Qed.

Lemma trailingSeparators_snoc pl p (c : N) :
  trailingSeparators pl (p ++ [c])
  = if isSeparator pl c then S (trailingSeparators pl p) else 0%nat.
Proof. unfold trailingSeparators. by rewrite reverse_snoc. Qed.

Lemma isSeparator_spec pl (c : N) :
  isSeparator pl c = true <-> [c] = path_sep pl \/ c = SLASH.
Proof.
  unfold isSeparator. rewrite orb_true_iff, N.eqb_eq, bool_decide_eq_true.
  tauto.
Qed.

(** The test of [ensureTrailingSlash] holds exactly of the paths that end
    with a separator. *)
Lemma ends_with_separator pl p :
  endsWith p (path_sep pl) || endsWith p (str "/")
  = (0 <? trailingSeparators pl p)%nat.
Proof.
  destruct p as [|c q _] using rev_ind; [by destruct pl|].
  rewrite trailingSeparators_snoc.
  destruct (isSeparator pl c) eqn:Hc.
  - apply isSeparator_spec in Hc as [Hc| ->].
    + rewrite <- Hc. apply orb_true_iff. left.
      by apply endsWith_singleton, last_snoc.
    + apply orb_true_iff. right.
      by apply (endsWith_singleton _ SLASH), last_snoc.
  - apply orb_false_iff. split; apply not_true_is_false; intros He.
    + assert (isSeparator pl c = true); [|congruence].
      apply isSeparator_spec. left.
      destruct pl; apply endsWith_singleton in He;
        rewrite last_snoc in He; by injection He as ->.
    + assert (isSeparator pl c = true); [|congruence].
      apply isSeparator_spec. right.
      apply (endsWith_singleton _ SLASH) in He.
      rewrite last_snoc in He. by injection He as ->.
Qed.

Lemma ensureTrailingSlash_spec pl p :
  ensureTrailingSlash pl p
  = if (0 <? trailingSeparators pl p)%nat then p else p ++ str "/".
Proof. unfold ensureTrailingSlash. by rewrite ends_with_separator. Qed.

Lemma ensureTrailingSlash_separators pl p :
  trailingSeparators pl (ensureTrailingSlash pl p)
  = Nat.max 1 (trailingSeparators pl p).
Proof.
  rewrite ensureTrailingSlash_spec.
  destruct (trailingSeparators pl p) as [|n] eqn:Hn; cbn [Nat.ltb Nat.leb].
  - change (str "/") with [SLASH]. rewrite trailingSeparators_snoc, Hn.
    by destruct pl.
  - rewrite Hn. lia.
Qed.

End ArgumentVectors.

(** C4, as the code has it.  The vector is [-avzP], one [--exclude] directive
    per pattern, each followed by its pattern, in the order of the patterns,
    [--delete] in mirror mode, [--dry-run] for the trial, the source path and
    [host:remoteRoot].  The source path is the local root when that already
    ends with a separator and the local root followed by one [/] otherwise:
    it ends with exactly one separator when the input ended with none or
    one, and with as many as the input when it ended with more. *)
Theorem argument_vector pl host mapping :
  let src := ensureTrailingSlash pl (local mapping) in
  let dest := host ++ str ":" ++ remote mapping in
  safeArgs pl host mapping
  = commandLine (excludes mapping) false false src dest
  /\ dryRunArgs pl host mapping
     = commandLine (excludes mapping) true true src dest
  /\ syncArgs pl host mapping
     = commandLine (excludes mapping) true false src dest
  /\ length (excludeDirectives (excludes mapping))
     = (2 * length (excludes mapping))%nat
  /\ (forall (i : nat) p,
        excludes mapping !! i = Some p ->
        excludeDirectives (excludes mapping) !! (2 * i)%nat
        = Some (str "--exclude")
        /\ excludeDirectives (excludes mapping) !! (2 * i + 1)%nat = Some p)
  /\ src = (if (0 <? trailingSeparators pl (local mapping))%nat
            then local mapping else local mapping ++ str "/")
  /\ trailingSeparators pl src
     = Nat.max 1 (trailingSeparators pl (local mapping)).
Proof.
  intros src dest.
  unfold safeArgs, dryRunArgs, syncArgs, commandLine, src_of, dest_of, push.
  rewrite !buildRsyncArgs_spec.
  repeat split.
  - by rewrite app_nil_r, <- !app_assoc.
  - by rewrite <- !app_assoc.
  - by rewrite <- !app_assoc.
  - apply excludeDirectives_length.
  - by eapply excludeDirectives_lookup.
  - by eapply excludeDirectives_lookup.
  - apply ensureTrailingSlash_spec.
  - apply ensureTrailingSlash_separators.
Qed.

Lemma argument_vector_witness :
  excludeDirectives [str ".git"; str "node_modules"] !! 2%nat
  = Some (str "--exclude")
  /\ excludeDirectives [str ".git"; str "node_modules"] !! 3%nat
     = Some (str "node_modules").
Proof.
  apply (proj1 (proj2 (proj2 (proj2 (proj2
           (argument_vector posix (str "user@10.0.0.5")
              {| local := str "/proj"; remote := str "/var/www/proj";
                 excludes := [str ".git"; str "node_modules"] |})))))
         1%nat (str "node_modules")).
  reflexivity.
Defined.

(** C4 as stated fails: a local root that ends with two separators is passed
    on with both. *)
Lemma trailing_separators_not_reduced :
  safeArgs posix (str "user@10.0.0.5")
    {| local := str "/proj//"; remote := str "/var/www/proj"; excludes := [] |}
  = [str "-avzP"; str "/proj//"; str "user@10.0.0.5:/var/www/proj"]
  /\ trailingSeparators posix (str "/proj//") = 2%nat
  /\ ~ (forall pl p,
          trailingSeparators pl (ensureTrailingSlash pl p) = 1%nat).
Proof.
  split; [by vm_compute|]. split; [by vm_compute|].
  intros H. specialize (H posix (str "/proj//")). vm_compute in H. discriminate.
Qed.

(** ** The session state *)

(** C10.  [set] stores the value and fires [onDidChange] exactly when the
    value differs from the one stored for the key; with the stored value it
    changes nothing and fires nothing; afterwards [get] returns the value
    set.  Other keys and the passwords are untouched. *)
Theorem SessionState_set_spec (key value : jsstring) (this : SessionState.t) :
  let this' := SessionState.set key value this in
  (SessionState.get key this <> Some value ->
     SessionState._serverChoice this'
     = <[key := value]> (SessionState._serverChoice this)
     /\ SessionState._onDidChange this'
        = S (SessionState._onDidChange this))
  /\ (SessionState.get key this = Some value -> this' = this)
  /\ (SessionState._onDidChange this' = S (SessionState._onDidChange this)
      <-> SessionState.get key this <> Some value)
  /\ SessionState.get key this' = Some value
  /\ (forall key', key' <> key ->
        SessionState.get key' this' = SessionState.get key' this)
  /\ SessionState._passwords this' = SessionState._passwords this.
Proof.
  unfold SessionState.set, SessionState.get. cbn zeta.
  case_bool_decide as Hc; cbn.
  - repeat split; try done.
    + by rewrite lookup_insert_eq.
    + intros key' Hne. by rewrite lookup_insert_ne.
  - repeat split; try done. intros Hn. lia.
Qed.

Lemma SessionState_set_spec_witness :
  SessionState.get (str "/proj")
    (SessionState.set (str "/proj") (str "staging")
       (SessionState.set (str "/proj") (str "prod") SessionState.create))
  = Some (str "staging")
  /\ SessionState._onDidChange
       (SessionState.set (str "/proj") (str "prod")
          (SessionState.set (str "/proj") (str "prod") SessionState.create))
     = 1%nat.
Proof.
  split.
  - apply SessionState_set_spec.
  - pose proof (SessionState_set_spec (str "/proj") (str "prod")
                  (SessionState.set (str "/proj") (str "prod")
                     SessionState.create)) as (_ & Hsame & _).
    rewrite Hsame; [reflexivity|]. apply SessionState_set_spec.
Defined.

(** ** Promises and the two runners *)

Lemma deliver_app {S} (on : S -> event -> S) evs1 evs2 (s : S) :
  deliver on (evs1 ++ evs2) s = deliver on evs2 (deliver on evs1 s).
Proof. apply fold_left_app. Qed.

Lemma deliver_cons {S} (on : S -> event -> S) ev evs (s : S) :
  deliver on (ev :: evs) s = deliver on evs (on s ev).
Proof. done. Qed.

Section SettleOnce.

Context {S A : Type} (p : S -> promise A) (on : S -> event -> S).
Hypothesis once : forall s ev, is_settled (p s) = true -> p (on s ev) = p s.

Lemma deliver_settled evs s :
  is_settled (p s) = true -> p (deliver on evs s) = p s.
Proof.
  revert s. induction evs as [|ev evs IH]; intros s Hs; cbn; [done|].
  unfold deliver in IH. rewrite IH; [by apply once|]. by rewrite once.
Qed.

(** What the awaiting function sees is what the promise holds for good. *)
Lemma until_settled_deliver evs s :
  p (until_settled p on evs s) = p (deliver on evs s).
Proof.
  revert s. induction evs as [|ev evs IH]; intros s; cbn; [done|].
  destruct (is_settled (p (on s ev))) eqn:Hs; [|apply IH].
  symmetry. by apply (deliver_settled evs).
Qed.

End SettleOnce.

Section Runners.

Implicit Types (args : list jsstring) (token : option CancellationToken).
Implicit Types (env : option (gmap jsstring jsstring)) (evs : list event).

Lemma withOutput_once token c ev :
  is_settled (c_promise c) = true ->
  c_promise (withOutput_on token c ev) = c_promise c.
Proof.
  destruct ev, token, c as [? ? [] ?]; cbn; try done;
    intros _; by case_bool_decide.
Qed.

Lemma command_once operationName token s ev :
  is_settled (s_promise s) = true ->
  s_promise (command_on operationName token s ev) = s_promise s.
Proof.
  destruct ev, token, s as [[] ?]; cbn; try done;
    intros _; by case_bool_decide.
Qed.

Lemma runRsyncCommandWithOutput_promise args token env evs st :
  (runRsyncCommandWithOutput args token env evs st).1
  = await (c_promise (withOutput_promise args token env evs st)).
Proof.
  unfold runRsyncCommandWithOutput, withOutput_promise. cbn.
  f_equal. apply until_settled_deliver, withOutput_once.
Qed.

Lemma runRsyncCommand_promise args operationName token env evs st :
  (runRsyncCommand args operationName token env evs st).1
  = await (s_promise (command_promise args operationName token env evs st)).
Proof.
  unfold runRsyncCommand, command_promise. cbn.
  f_equal. apply until_settled_deliver, command_once.
Qed.

(** Output alone accumulates and settles nothing. *)
Lemma withOutput_data token pre c :
  forallb is_data pre = true ->
  deliver (withOutput_on token) pre c
  = {| c_stdout := c_stdout c ++ stdout_of pre;
       c_stderr := c_stderr c ++ stderr_of pre;
       c_promise := c_promise c;
       c_state := c_state c |}.
Proof.
  revert c. induction pre as [|ev pre IH]; intros c Hpre.
  - destruct c. cbn. by rewrite !app_nil_r.
  - apply andb_prop in Hpre as [Hev Hpre].
    unfold deliver in *. cbn [fold_left]. rewrite (IH _ Hpre).
    destruct ev; try done; cbn; by rewrite <- ?app_assoc.
Qed.

Lemma command_data operationName token pre s :
  forallb is_data pre = true ->
  s_promise (deliver (command_on operationName token) pre s) = s_promise s.
Proof.
  revert s. induction pre as [|ev pre IH]; intros s Hpre; [done|].
  apply andb_prop in Hpre as [Hev Hpre].
  unfold deliver in *. cbn [fold_left]. rewrite (IH _ Hpre).
  by destruct ev.
Qed.

Lemma withOutput_close args token env pre code post st :
  forallb is_data pre = true ->
  c_promise
    (withOutput_promise args token env (pre ++ close code :: post) st)
  = if bool_decide (code = Some 0%Z) then fulfilled (stdout_of pre)
    else rejected
           {| message :=
                or_else (stderr_of pre)
                  (str "rsync exited with code " ++ string_of_code code) |}.
Proof.
  intros Hpre. unfold withOutput_promise.
  rewrite deliver_app, deliver_cons, (withOutput_data token pre) by done.
  rewrite deliver_settled; [| apply withOutput_once |];
    cbn; by case_bool_decide.
Qed.

Lemma command_close args operationName token env pre code post st :
  forallb is_data pre = true ->
  s_promise
    (command_promise args operationName token env (pre ++ close code :: post)
       st)
  = if bool_decide (code = Some 0%Z) then fulfilled tt
    else rejected
           {| message :=
                operationName ++ str " failed with code "
                ++ string_of_code code |}.
Proof.
  intros Hpre. unfold command_promise.
  rewrite deliver_app, deliver_cons.
  rewrite deliver_settled; [| apply command_once |].
  - cbn. case_bool_decide; cbn; by rewrite (command_data _ _ pre).
  - cbn. case_bool_decide; cbn; by rewrite (command_data _ _ pre).
Qed.

(** A cancellation that reaches the capturing run while its promise is
    pending rejects the promise for good and kills the process. *)
Lemma withOutput_cancel args env pre post st :
  forallb is_data pre = true ->
  let c := withOutput_promise args (Some progressToken) env
             (pre ++ cancellationRequested :: post) st in
  c_promise c = rejected {| message := str "Operation cancelled" |}
  /\ Kill captured ∈ trace (c_state c).
Proof.
  intros Hpre c. unfold c, withOutput_promise.
  rewrite deliver_app, deliver_cons, (withOutput_data _ pre) by done.
  split.
  - rewrite deliver_settled; [done | apply withOutput_once | done].
  - cbn. generalize (c_stdout (withOutput_start args env st) ++ stdout_of pre)
           (c_stderr (withOutput_start args env st) ++ stderr_of pre).
    intros out err.
    assert (forall c, Kill captured ∈ trace (c_state c) ->
              Kill captured
              ∈ trace (c_state
                         (deliver (withOutput_on (Some progressToken)) post c)))
      as Hkeep.
    { induction post as [|ev post IH]; intros c' Hc; [done|].
      rewrite deliver_cons. apply IH. destruct ev; cbn; try done.
      apply elem_of_app. by left. }
    apply Hkeep. cbn. apply elem_of_app. right. apply list_elem_of_here.
Qed.

(** *** What a run does to the state *)

Lemma withOutput_until_settled token evs c :
  c_promise c = pending ->
  let c' := until_settled c_promise (withOutput_on token) evs c in
  process_env (c_state c') = process_env (c_state c)
  /\ ((trace (c_state c') = trace (c_state c)
       /\ isCancellationRequested (c_state c')
          = isCancellationRequested (c_state c))
      \/ (token = Some progressToken
          /\ trace (c_state c') = trace (c_state c) ++ [Kill captured]
          /\ isCancellationRequested (c_state c') = true
          /\ c_promise c'
             = rejected {| message := str "Operation cancelled" |})).
Proof.
  revert c. induction evs as [|ev evs IH]; intros c Hc; [by auto|].
  cbn [until_settled].
  destruct ev as [data|data|code|err|].
  - specialize (IH (withOutput_on token c (stdout_data data)) Hc).
    cbn in IH |- *. rewrite Hc in IH |- *. exact IH.
  - specialize (IH (withOutput_on token c (stderr_data data)) Hc).
    cbn in IH |- *. rewrite Hc in IH |- *. exact IH.
  - cbn. rewrite Hc. case_bool_decide; cbn; auto.
  - cbn. rewrite Hc. cbn. auto.
  - destruct token as [[]|].
    + cbn. rewrite Hc. cbn. split; [done|]. right. done.
    + specialize (IH c Hc). cbn in IH |- *. rewrite Hc. exact IH.
Qed.

Lemma runRsyncCommandWithOutput_effect args token env evs st :
  let r := runRsyncCommandWithOutput args token env evs st in
  process_env r.2 = process_env st
  /\ ((trace r.2 = trace st ++ [Spawn captured args (spawn_env env st)]
       /\ isCancellationRequested r.2 = isCancellationRequested st)
      \/ (token = Some progressToken
          /\ trace r.2
             = trace st ++ [Spawn captured args (spawn_env env st);
                            Kill captured]
          /\ r.1 = Throw {| message := str "Operation cancelled" |})).
Proof.
  unfold runRsyncCommandWithOutput. cbn.
  destruct (withOutput_until_settled token evs (withOutput_start args env st))
    as (Henv & [[Ht Hf]|(Htok & Ht & _ & Hp)]); [done| | ].
  - split; [done|]. left. done.
  - split; [done|]. right. rewrite Ht, Hp. cbn. by rewrite <- app_assoc.
Qed.

(** How a capturing run ends depends on the events and the token alone. *)
Lemma withOutput_until_settled_same token evs c1 c2 :
  c_stdout c1 = c_stdout c2 -> c_stderr c1 = c_stderr c2 ->
  c_promise c1 = c_promise c2 ->
  c_promise (until_settled c_promise (withOutput_on token) evs c1)
  = c_promise (until_settled c_promise (withOutput_on token) evs c2).
Proof.
  revert c1 c2. induction evs as [|ev evs IH]; intros c1 c2 Ho He Hp; [done|].
  cbn [until_settled].
  assert (c_stdout (withOutput_on token c1 ev)
          = c_stdout (withOutput_on token c2 ev)
          /\ c_stderr (withOutput_on token c1 ev)
             = c_stderr (withOutput_on token c2 ev)
          /\ c_promise (withOutput_on token c1 ev)
             = c_promise (withOutput_on token c2 ev)) as (Ho' & He' & Hp').
  { destruct ev, token; cbn; by rewrite ?Ho, ?He, ?Hp. }
  rewrite Hp'. destruct (is_settled _); [done | by apply IH].
Qed.

Lemma runRsyncCommandWithOutput_ends args env st args' env' st' token evs :
  (runRsyncCommandWithOutput args token env evs st).1
  = (runRsyncCommandWithOutput args' token env' evs st').1.
Proof.
  unfold runRsyncCommandWithOutput. cbn. f_equal.
  by apply withOutput_until_settled_same.
Qed.

Lemma command_on_trace operationName token s ev :
  exists rest,
    trace (s_state (command_on operationName token s ev))
    = trace (s_state s) ++ rest
    /\ forallb from_handler rest = true
    /\ process_env (s_state (command_on operationName token s ev))
       = process_env (s_state s).
Proof.
  destruct ev as [data|data|code|err|]; cbn.
  - by eexists [_].
  - by eexists [_].
  - case_bool_decide; cbn; eexists [_; _; _]; by rewrite <- !app_assoc.
  - by eexists [_].
  - destruct token; cbn.
    + eexists [_; _; _]. by rewrite <- !app_assoc.
    + exists []. by rewrite app_nil_r.
Qed.

Lemma command_until_settled_trace operationName token evs s :
  exists rest,
    trace (s_state (until_settled s_promise (command_on operationName token)
                      evs s))
    = trace (s_state s) ++ rest
    /\ forallb from_handler rest = true
    /\ process_env
         (s_state (until_settled s_promise (command_on operationName token)
                     evs s))
       = process_env (s_state s).
Proof.
  revert s. induction evs as [|ev evs IH]; intros s.
  - exists []. by rewrite app_nil_r.
  - cbn [until_settled].
    destruct (command_on_trace operationName token s ev) as (r1 & Ht & Hr & He).
    destruct (is_settled _); [by exists r1|].
    destruct (IH (command_on operationName token s ev)) as (r2 & Ht2 & Hr2 & He2).
    exists (r1 ++ r2). rewrite Ht2, Ht, He2, He, <- app_assoc, forallb_app, Hr, Hr2.
    done.
Qed.

Lemma command_deliver_trace operationName token evs s :
  exists rest,
    trace (s_state (deliver (command_on operationName token) evs s))
    = trace (s_state s) ++ rest.
Proof.
  revert s. induction evs as [|ev evs IH]; intros s.
  - exists []. by rewrite app_nil_r.
  - rewrite deliver_cons.
    destruct (command_on_trace operationName token s ev) as (r1 & Ht & _).
    destruct (IH (command_on operationName token s ev)) as (r2 & Ht2).
    exists (r1 ++ r2). by rewrite Ht2, Ht, <- app_assoc.
Qed.

(** The streaming run writes its command line, spawns the process, and from
    then on only its handlers act. *)
Lemma runRsyncCommand_effect args operationName token env evs st :
  let r := runRsyncCommand args operationName token env evs st in
  exists rest,
    trace r.2
    = trace st
      ++ [AppendLine (str "Running: rsync " ++ join (str " ") args);
          AppendLine [];
          Spawn streamed args (spawn_env env st)]
      ++ rest
    /\ forallb from_handler rest = true
    /\ process_env r.2 = process_env st.
Proof.
  unfold runRsyncCommand. cbn.
  destruct (command_until_settled_trace operationName token evs
              (command_start args operationName env st))
    as (rest & Ht & Hr & He).
  exists rest. rewrite Ht, He. cbn. by rewrite <- !app_assoc.
Qed.

End Runners.

(** C6, where the code departs from it.  In the capturing run a cancellation
    rejects the promise with [Operation cancelled], whatever the process
    does afterwards.  In the streaming run the listener kills the process
    and settles nothing: the exit code that follows decides, so the run ends
    as a failure with code [null], or even as a success. *)
Theorem cancelled_streaming_run_ends_by_exit_code
    args operationName env code post st :
  let s := command_promise args operationName (Some progressToken) env
             (cancellationRequested :: close code :: post) st in
  s_promise s
  = (if bool_decide (code = Some 0%Z) then fulfilled tt
     else rejected
            {| message :=
                 operationName ++ str " failed with code "
                 ++ string_of_code code |})
  /\ Kill streamed ∈ trace (s_state s)
  /\ (runRsyncCommand args (str "Full sync") (Some progressToken) env
        [cancellationRequested; close None] st).1
     = Throw {| message := str "Full sync failed with code null" |}
  /\ (runRsyncCommand args (str "Full sync") (Some progressToken) env
        [cancellationRequested; close (Some 0%Z)] st).1
     = Return tt
  /\ c_promise
       (withOutput_promise args (Some progressToken) env
          (cancellationRequested :: close code :: post) st)
     = rejected {| message := str "Operation cancelled" |}.
Proof.
  intros s. repeat split.
  - unfold s, command_promise. rewrite !deliver_cons.
    rewrite deliver_settled; [| apply command_once |];
      cbn; by case_bool_decide.
  - unfold s, command_promise. rewrite deliver_cons.
    destruct (command_deliver_trace operationName (Some progressToken)
                (close code :: post)
                (command_on operationName (Some progressToken)
                   (command_start args operationName env st)
                   cancellationRequested)) as (rest & ->).
    cbn. rewrite !elem_of_app. left. right. apply list_elem_of_here.
  - apply (proj1 (withOutput_cancel args env [] (close code :: post) st eq_refl)).
Qed.

(** C7, as the code has it.  When a process closes after writing to its
    streams, exit code 0 makes the run succeed (the capturing run with the
    text of its standard output) and any other code, [null] included, makes
    it fail: the capturing run with the accumulated standard error text, or
    with [rsync exited with code N] when that text is empty; the streaming
    run, which passes standard error on to the output channel and keeps none
    of it, always with [<operation> failed with code N]. *)
Theorem exit_code_outcome args operationName token env pre code post st :
  forallb is_data pre = true ->
  (runRsyncCommandWithOutput args token env (pre ++ close code :: post) st).1
  = (if bool_decide (code = Some 0%Z) then Return (stdout_of pre)
     else Throw
            {| message :=
                 or_else (stderr_of pre)
                   (str "rsync exited with code " ++ string_of_code code) |})
  /\ (runRsyncCommand args operationName token env
        (pre ++ close code :: post) st).1
     = (if bool_decide (code = Some 0%Z) then Return tt
        else Throw
               {| message :=
                    operationName ++ str " failed with code "
                    ++ string_of_code code |}).
Proof.
  intros Hpre. split.
  - rewrite runRsyncCommandWithOutput_promise, withOutput_close by done.
    by case_bool_decide.
  - rewrite runRsyncCommand_promise, command_close by done.
    by case_bool_decide.
Qed.

Lemma exit_code_outcome_witness :
  (runRsyncCommandWithOutput [str "-avzP"] None None
     [stdout_data (str "sending incremental file list");
      stderr_data (str "rsync: connection refused");
      close (Some 255%Z)] (start false ∅)).1
  = Throw {| message := str "rsync: connection refused" |}
  /\ (runRsyncCommand [str "-avzP"] (str "Safe sync") None None
        [stdout_data (str "sending incremental file list");
         stderr_data (str "rsync: connection refused");
         close (Some 255%Z)] (start false ∅)).1
     = Throw {| message := str "Safe sync failed with code 255" |}.
Proof.
  apply (exit_code_outcome [str "-avzP"] (str "Safe sync") None None
           [stdout_data (str "sending incremental file list");
            stderr_data (str "rsync: connection refused")]
           (Some 255%Z) [] (start false ∅)).
  reflexivity.
Defined.

(** C7 as stated fails.  A trial run that closes with code 23 and wrote
    nothing to standard error fails with [rsync exited with code 23], which
    is [<operation> failed with code 23] for no operation; a streaming run
    that wrote to standard error fails with the synthesized message all the
    same. *)
Lemma failure_detail_not_as_stated :
  (runRsyncCommandWithOutput [str "-avzP"] None None [close (Some 23%Z)]
     (start false ∅)).1
  = Throw {| message := str "rsync exited with code 23" |}
  /\ ~ (exists operation,
          str "rsync exited with code 23"
          = operation ++ str " failed with code 23")
  /\ (runRsyncCommand [str "-avzP"] (str "Full sync") None None
        [stderr_data (str "rsync: connection refused"); close (Some 255%Z)]
        (start false ∅)).1
     = Throw {| message := str "Full sync failed with code 255" |}.
Proof.
  split; [by vm_compute|]. split; [|by vm_compute].
  intros [operation H].
  apply (f_equal reverse) in H. rewrite reverse_app in H.
  apply (f_equal (take 20)) in H.
  rewrite take_app_length' in H by (by vm_compute).
  vm_compute in H. discriminate.
Qed.

(** ** The mirror flow *)

Section MirrorFlow.

Variable pl : platform.
Implicit Types (host : jsstring) (mapping : Mapping) (w : surroundings).
Implicit Types (token : option CancellationToken) (st : state).
Implicit Types (env : option (gmap jsstring jsstring)).

Lemma log_all_trace acts st : trace (log_all acts st) = trace st ++ acts.
Proof.
  revert st. induction acts as [|a acts IH]; intros st; cbn.
  - by rewrite app_nil_r.
  - unfold log_all in IH. rewrite IH. cbn. by rewrite <- app_assoc.
Qed.

Lemma log_all_cancellation acts st :
  isCancellationRequested (log_all acts st) = isCancellationRequested st.
Proof.
  revert st. induction acts as [|a acts IH]; intros st; cbn; [done|].
  unfold log_all in IH. by rewrite IH.
Qed.

Lemma log_all_env acts st : process_env (log_all acts st) = process_env st.
Proof.
  revert st. induction acts as [|a acts IH]; intros st; cbn; [done|].
  unfold log_all in IH. by rewrite IH.
Qed.

Lemma log_all_app acts1 acts2 st :
  log_all (acts1 ++ acts2) st = log_all acts2 (log_all acts1 st).
Proof. apply fold_left_app. Qed.

Lemma forEach_appendLine (files : list jsstring) (f : jsstring -> jsstring) st :
  forEach files (fun x => appendLine (f x)) st
  = (Return tt, log_all (map (fun x => AppendLine (f x)) files) st).
Proof.
  revert st. induction files as [|x files IH]; intros st; [done|].
  cbn. unfold bind. cbn. apply IH.
Qed.

(** [runFullSync], one step at a time. *)
Lemma runFullSync_unfold host mapping token env w st :
  runFullSync pl host mapping token env w st
  = let st1 := log_all (fullSync_banner host mapping) st in
    if bool_decide (is_Some token) && isCancellationRequested st
    then (Return tt, st1)
    else
      match runRsyncCommandWithOutput (dryRunArgs pl host mapping) token env
              (trial_events w) st1 with
      | (Throw e, st2) =>
          (Throw e, log (AppendLine (str "Error: " ++ message e)) st2)
      | (Never, st2) => (Never, st2)
      | (Return out, st2) =>
          let files := parseDeletedFiles out in
          if (0 <? length files)%nat then
            let st3 := log_all (deletion_listing files) st2 in
            let st4 :=
              (showWarningMessage (confirmation_message (length files))
                 (str "Yes, delete") token w st3).2 in
            if bool_decide (picked_item w <> Some (str "Yes, delete")) then
              (Return tt,
               log (ShowInformationMessage (str "Full sync cancelled."))
                 (log (AppendLine (str "Operation cancelled.")) st4))
            else real_run pl host mapping token env w st4
          else
            real_run pl host mapping token env w
              (log (AppendLine (CHECK :: str " No files need to be deleted."))
                 st2)
      end.
Proof.
  assert (forall files st2,
            log_all (deletion_listing files) st2
            = log (AppendLine (str "Total files to delete: "
                               ++ string_of_nat (length files)))
                (log (AppendLine [])
                   (log_all (map (fun f => AppendLine (str "  - " ++ f)) files)
                      (log (AppendLine
                              ([9888; 65039]
                               ++ str "  WARNING! The following files will be DELETED on the server:"))
                         (log (AppendLine []) st2))))) as Hlisting.
  { intros files st2. unfold deletion_listing.
    by rewrite !log_all_app. }
  unfold runFullSync, real_run, try_catch, bind, cancellationRequested_on,
    showWarningMessage, dryRunArgs, syncArgs, src_of, dest_of,
    confirmation_message.
  cbv zeta.
  destruct token as [tok|]; destruct (isCancellationRequested st) eqn:Hcan;
    cbn -[runRsyncCommandWithOutput runRsyncCommand parseDeletedFiles
          buildRsyncArgs ensureTrailingSlash forEach Nat.ltb length
          log_all deletion_listing];
    rewrite ?Hcan; try done.
  all: destruct (runRsyncCommandWithOutput _ _ _ _ _) as [[out|e|] st2];
    try done.
  all: generalize (parseDeletedFiles out); intros files.
  all: destruct (0 <? length files)%nat.
  all: rewrite ?forEach_appendLine, ?Hlisting.
  all: repeat case_bool_decide; try done.
  all: destruct (cancelled_at_prompt w);
    cbn -[runRsyncCommand buildRsyncArgs ensureTrailingSlash log_all];
    try done.
  all: repeat match goal with
              | |- context [if ?b then _ else _] => destruct b
              end; reflexivity.
Qed.

Lemma real_run_effect host mapping token env w st :
  let r := real_run pl host mapping token env w st in
  (token <> None /\ isCancellationRequested st = true
   /\ r = (Return tt, st))
  \/ ((token = None \/ isCancellationRequested st = false)
      /\ exists rest,
           trace r.2 = trace st ++ real_run_start pl host mapping env st ++ rest
           /\ forallb from_handler rest = true).
Proof.
  unfold real_run.
  destruct token as [tok|]; [destruct (isCancellationRequested st) eqn:Hc|];
    cbn [bool_decide decide_rel andb].
  1: { left. done. }
  all: right; split; [by auto|].
  all: match goal with
       | |- context [runRsyncCommand ?a ?o ?t ?e ?evs ?st] =>
           destruct (runRsyncCommand_effect a o t e evs st)
             as (rest & Ht & Hr & _);
           destruct (runRsyncCommand a o t e evs st) as [[[]|err|] st']
       end.
  all: cbn in Ht |- *; rewrite Ht.
  all: try (by exists rest).
  all: exists (rest ++ [AppendLine (str "Error: " ++ message err)]).
  all: rewrite forallb_app, Hr; split; [|done].
  all: unfold real_run_start; by rewrite <- !app_assoc.
Qed.

Lemma showWarningMessage_effect msg item token w st :
  let st' := (showWarningMessage msg item token w st).2 in
  trace st' = trace st ++ [ShowWarningMessage msg item (picked_item w)]
  /\ process_env st' = process_env st
  /\ (isCancellationRequested st' = true ->
      isCancellationRequested st = true
      \/ (cancelled_at_prompt w = true /\ token <> None)).
Proof.
  unfold showWarningMessage. cbn.
  destruct (cancelled_at_prompt w), token; cbn; auto.
Qed.

Lemma spawn_env_same env st st' :
  process_env st' = process_env st -> spawn_env env st' = spawn_env env st.
Proof. unfold spawn_env. by intros ->. Qed.

Lemma real_run_start_same host mapping env st st' :
  process_env st' = process_env st ->
  real_run_start pl host mapping env st'
  = real_run_start pl host mapping env st.
Proof. unfold real_run_start. by intros ->%(spawn_env_same env). Qed.

Lemma trial_ends_intro token w args env st c :
  (runRsyncCommandWithOutput args token env (trial_events w) st).1 = c ->
  trial_ends token w c.
Proof.
  intros <- args' env' st'. apply runRsyncCommandWithOutput_ends.
Qed.

Lemma not_cancelled_intro token st :
  bool_decide (is_Some token) && isCancellationRequested st = false ->
  not_cancelled token st.
Proof.
  destruct token; cbn; [by right | by left].
Qed.

Lemma not_cancelled_elim token st :
  not_cancelled token st -> token <> None ->
  isCancellationRequested st = false.
Proof. by intros [->|?]. Qed.

(** Every invocation goes one of the seven ways of [mirror_flow]. *)
Lemma runFullSync_flow host mapping token env w st :
  let r := runFullSync pl host mapping token env w st in
  exists acts,
    trace r.2 = trace st ++ acts
    /\ mirror_flow pl host mapping token env w st r.1 acts.
Proof.
  rewrite runFullSync_unfold. cbv zeta.
  set (st1 := log_all (fullSync_banner host mapping) st).
  assert (trace st1 = trace st ++ fullSync_banner host mapping) as Ht1
    by apply log_all_trace.
  assert (process_env st1 = process_env st) as He1 by apply log_all_env.
  assert (isCancellationRequested st1 = isCancellationRequested st) as Hf1
    by apply log_all_cancellation.
  clearbody st1.
  destruct (bool_decide (is_Some token) && isCancellationRequested st)
    eqn:Hbefore.
  { exists (fullSync_banner host mapping). split; [done|].
    apply andb_prop in Hbefore as [Htok Hcan].
    apply bool_decide_eq_true in Htok as [tok ->].
    by apply flow_cancelled_before. }
  apply not_cancelled_intro in Hbefore as Hnot.
  pose proof (runRsyncCommandWithOutput_effect (dryRunArgs pl host mapping)
                token env (trial_events w) st1) as (He2 & Htrial).
  pose proof (trial_ends_intro token w (dryRunArgs pl host mapping) env st1 _
                eq_refl) as Hends.
  rewrite (spawn_env_same env st st1 He1) in Htrial.
  destruct (runRsyncCommandWithOutput (dryRunArgs pl host mapping) token env
              (trial_events w) st1) as [[out|e|] st2];
    cbn [fst snd] in He2, Htrial, Hends |- *.
  - (* the trial succeeded *)
    destruct Htrial as [[Ht2 Hf2]|(_ & _ & [=])].
    destruct (0 <? length (parseDeletedFiles out))%nat eqn:Hlen.
    + assert (parseDeletedFiles out <> []) as Hfiles.
      { intros Hnil. by rewrite Hnil in Hlen. }
      set (files := parseDeletedFiles out) in *.
      set (st3 := log_all (deletion_listing files) st2).
      destruct (showWarningMessage_effect
                  (confirmation_message (length files)) (str "Yes, delete")
                  token w st3) as (Ht4 & He4 & Hf4).
      set (st4 := (showWarningMessage (confirmation_message (length files))
                     (str "Yes, delete") token w st3).2) in *.
      assert (trace st4
              = trace st ++ asked pl host mapping env w st files) as Hasked.
      { rewrite Ht4. unfold st3. rewrite log_all_trace, Ht2, Ht1.
        unfold asked. by rewrite <- !app_assoc. }
      assert (process_env st4 = process_env st) as He.
      { rewrite He4. unfold st3. by rewrite log_all_env, He2. }
      clearbody st4.
      destruct (bool_decide (picked_item w <> Some (str "Yes, delete")))
        eqn:Hpick.
      * apply bool_decide_eq_true in Hpick.
        eexists. split; [|by apply (flow_declined _ _ _ _ _ _ _ out)].
        cbn [fst snd trace log]. rewrite Hasked. by rewrite <- !app_assoc.
      * apply bool_decide_eq_false, dec_stable in Hpick.
        destruct (real_run_effect host mapping token env w st4)
          as [(Htok & Hcan & ->)|(_ & rest & Htr & Hrest)].
        -- exists (asked pl host mapping env w st files). split; [done|].
           apply (flow_cancelled_at_prompt _ _ _ _ _ _ _ out); try done.
           destruct (Hf4 Hcan) as [Hcan3|[? _]]; [|done].
           unfold st3 in Hcan3. rewrite log_all_cancellation, Hf2, Hf1 in Hcan3.
           by rewrite (not_cancelled_elim _ _ Hnot Htok) in Hcan3.
        -- eexists. split; [|by apply (flow_confirmed _ _ _ _ _ _ _ out _ rest)].
           rewrite Htr, Hasked, (real_run_start_same _ _ _ st st4 He).
           by rewrite <- !app_assoc.
    + assert (parseDeletedFiles out = []) as Hfiles.
      { by destruct (parseDeletedFiles out). }
      set (st3 := log (AppendLine (CHECK :: str " No files need to be deleted."))
                    st2).
      destruct (real_run_effect host mapping token env w st3)
        as [(Htok & Hcan & _)|(_ & rest & Htr & Hrest)].
      * cbn [st3 isCancellationRequested log] in Hcan. rewrite Hf2, Hf1 in Hcan.
        by rewrite (not_cancelled_elim _ _ Hnot Htok) in Hcan.
      * eexists. split;
          [|by apply (flow_nothing_to_delete _ _ _ _ _ _ _ out _ rest)].
        rewrite Htr. cbn [st3 trace log]. rewrite Ht2, Ht1.
        rewrite (real_run_start_same _ _ _ st st3) by (by cbn [st3 process_env log]; rewrite He2).
        by rewrite <- !app_assoc.
  - (* the trial failed *)
    destruct Htrial as [[Ht2 Hf2]|(_ & Ht2 & _)].
    + eexists. split; [|by apply (flow_trial_failed _ _ _ _ _ _ _ e []); auto].
      cbn [fst snd trace log]. rewrite Ht2, Ht1. by rewrite <- !app_assoc.
    + eexists. split;
        [|by apply (flow_trial_failed _ _ _ _ _ _ _ e [Kill captured]); auto].
      cbn [fst snd trace log]. rewrite Ht2, Ht1. by rewrite <- !app_assoc.
  - (* the trial never ends *)
    destruct Htrial as [[Ht2 Hf2]|(_ & _ & [=])].
    eexists. split; [|by apply flow_trial_pending].
    rewrite Ht2, Ht1. by rewrite <- !app_assoc.
Qed.

(** [runSafeSync] writes its banner and runs [rsync] once, on [safeArgs]. *)
Lemma runSafeSync_effect host mapping token env evs st :
  let r := runSafeSync pl host mapping token env evs st in
  exists rest,
    trace r.2
    = trace st
      ++ [AppendLine [];
          AppendLine BAR;
          AppendLine (str ">>> Syncing (Safe Mode): " ++ local mapping
                      ++ str " -> " ++ host ++ str ":" ++ remote mapping);
          AppendLine
            (str "Files missing locally will NOT be deleted on the server.");
          AppendLine BAR;
          AppendLine
            (str "Running: rsync " ++ join (str " ") (safeArgs pl host mapping));
          AppendLine [];
          Spawn streamed (safeArgs pl host mapping) (spawn_env env st)]
      ++ rest
    /\ forallb from_handler rest = true.
Proof.
  unfold runSafeSync, bind, appendLine, perform. cbv zeta.
  cbn [fst snd].
  match goal with
  | |- context [runRsyncCommand ?a ?o ?t ?e ?evs ?st] =>
      destruct (runRsyncCommand_effect a o t e evs st) as (rest & Ht & Hr & _)
  end.
  exists rest. split; [|done].
  rewrite Ht. cbn [trace log]. by rewrite <- !app_assoc.
Qed.

End MirrorFlow.

Section Gate.

Implicit Types (host : jsstring) (mapping : Mapping) (w : surroundings).
Implicit Types (token : option CancellationToken) (st : state).
Implicit Types (env : option (gmap jsstring jsstring)).

Lemma trial_ends_unique token w c1 c2 :
  trial_ends token w c1 -> trial_ends token w c2 -> c1 = c2.
Proof.
  intros H1 H2. specialize (H1 [] None (start false ∅)).
  specialize (H2 [] None (start false ∅)). congruence.
Qed.

Lemma not_cancelled_contra token st :
  not_cancelled token st -> token <> None ->
  isCancellationRequested st = true -> False.
Proof. intros [->|Hf] Htok Hc; [done | congruence]. Qed.

Lemma from_handler_quiet (acts : list action) :
  forallb from_handler acts = true ->
  existsb is_real_run acts = false
  /\ existsb is_spawn acts = false
  /\ existsb is_confirmation acts = false.
Proof.
  induction acts as [|a acts IH]; [done|].
  intros [Ha Hacts]%andb_prop. destruct (IH Hacts) as (H1 & H2 & H3).
  cbn. rewrite H1, H2, H3. by destruct a as [| |[]| | | | |].
Qed.

Lemma deletion_listing_from_handler (files : list jsstring) :
  forallb from_handler (deletion_listing files) = true.
Proof.
  unfold deletion_listing. rewrite !forallb_app. cbn.
  rewrite andb_true_r. by induction files.
Qed.

Lemma fullSync_banner_from_handler host mapping :
  forallb from_handler (fullSync_banner host mapping) = true.
Proof. done. Qed.

(** Up to the modal warning nothing is spawned but the trial run. *)
Lemma asked_no_real_run pl host mapping env w st (files : list jsstring) :
  existsb is_real_run (asked pl host mapping env w st files) = false.
Proof.
  unfold asked. rewrite !existsb_app.
  destruct (from_handler_quiet _ (deletion_listing_from_handler files))
    as (-> & _).
  by destruct (from_handler_quiet _ (fullSync_banner_from_handler host mapping))
    as (-> & _).
Qed.

(** The two failures of a trial run the flow meets first: a non-zero exit
    code, and a process that could not be spawned. *)
Lemma trial_ends_exit_code token w pre code post :
  trial_events w = pre ++ close code :: post ->
  forallb is_data pre = true -> code <> Some 0%Z ->
  trial_ends token w
    (Throw {| message :=
                or_else (stderr_of pre)
                  (str "rsync exited with code " ++ string_of_code code) |}).
Proof.
  intros Hev Hpre Hcode args env st. rewrite Hev.
  rewrite runRsyncCommandWithOutput_promise, withOutput_close by done.
  by case_bool_decide.
Qed.

Lemma trial_ends_spawn_failure token w pre err post :
  trial_events w = pre ++ error err :: post ->
  forallb is_data pre = true ->
  trial_ends token w (Throw err).
Proof.
  intros Hev Hpre args env st. rewrite Hev.
  rewrite runRsyncCommandWithOutput_promise. unfold withOutput_promise.
  rewrite deliver_app, deliver_cons, (withOutput_data token pre) by done.
  by rewrite deliver_settled; [| apply withOutput_once |].
Qed.

Lemma runFullSync_flow_start pl host mapping token env w c penv :
  let r := runFullSync pl host mapping token env w (start c penv) in
  mirror_flow pl host mapping token env w (start c penv) r.1 (trace r.2).
Proof.
  destruct (runFullSync_flow pl host mapping token env w (start c penv))
    as (acts & Ht & Hflow).
  cbn zeta. by rewrite Ht.
Qed.

End Gate.

(** C1.  In a Full Sync the real run is spawned only if the trial run
    succeeded and either reported no deletion or reported some, the list was
    written to the output channel, and the item picked in the modal warning
    that followed was [Yes, delete]; the spawn of the real run comes after
    that warning. *)
Theorem real_run_is_gated pl host mapping token env w cancelled penv :
  let st := start cancelled penv in
  let r := runFullSync pl host mapping token env w st in
  existsb is_real_run (trace r.2) = true ->
  exists out,
    trial_ends token w (Return out)
    /\ (parseDeletedFiles out = []
        \/ (parseDeletedFiles out <> []
            /\ picked_item w = Some (str "Yes, delete")
            /\ (forall f, f ∈ parseDeletedFiles out ->
                  AppendLine (str "  - " ++ f)
                  ∈ asked pl host mapping env w st (parseDeletedFiles out))
            /\ existsb is_real_run
                 (asked pl host mapping env w st (parseDeletedFiles out))
               = false
            /\ exists rest,
                 trace r.2
                 = asked pl host mapping env w st (parseDeletedFiles out)
                   ++ real_run_start pl host mapping env st ++ rest)).
Proof.
  intros st r Hreal.
  pose proof (runFullSync_flow_start pl host mapping token env w cancelled penv)
    as Hflow.
  fold st r in Hflow. cbv zeta in Hflow.
  destruct Hflow as [| |e kill _ _ Hkill|out c rest|out|out|out c rest].
  - done.
  - done.
  - by destruct Hkill as [-> | ->].
  - exists out. auto.
  - rewrite existsb_app, asked_no_real_run in Hreal. done.
  - by rewrite asked_no_real_run in Hreal.
  - exists out. split; [done|]. right. repeat split; try done.
    + intros f Hf. unfold asked, deletion_listing.
      rewrite !elem_of_app. right. right. left. right. left.
      apply list_elem_of_fmap. by exists f.
    + apply asked_no_real_run.
    + by exists rest.
Qed.

Lemma real_run_is_gated_witness :
  exists out,
    trial_ends (Some progressToken) confirmed_sync (Return out)
    /\ (parseDeletedFiles out = []
        \/ (parseDeletedFiles out <> []
            /\ picked_item confirmed_sync = Some (str "Yes, delete")
            /\ (forall f, f ∈ parseDeletedFiles out ->
                  AppendLine (str "  - " ++ f)
                  ∈ asked posix example_host example_mapping None
                      confirmed_sync (start false ∅) (parseDeletedFiles out))
            /\ existsb is_real_run
                 (asked posix example_host example_mapping None confirmed_sync
                    (start false ∅) (parseDeletedFiles out))
               = false
            /\ exists rest,
                 trace
                   (runFullSync posix example_host example_mapping
                      (Some progressToken) None confirmed_sync
                      (start false ∅)).2
                 = asked posix example_host example_mapping None
                     confirmed_sync (start false ∅) (parseDeletedFiles out)
                   ++ real_run_start posix example_host example_mapping None
                        (start false ∅)
                   ++ rest)).
Proof.
  apply (real_run_is_gated posix example_host example_mapping
           (Some progressToken) None confirmed_sync false ∅).
  vm_compute. reflexivity.
Defined.

(** C3.  After a trial run that succeeded: when it reported deletions and
    the item picked in the modal warning is not [Yes, delete], the invocation
    ends without an error, having written [Operation cancelled.] and shown
    [Full sync cancelled.], and the real run is not spawned; when it
    reported no deletion, no warning is shown and the real run is spawned
    right after the line that says so. *)
Theorem gate_declined_or_skipped pl host mapping token env w cancelled penv out :
  let st := start cancelled penv in
  let r := runFullSync pl host mapping token env w st in
  not_cancelled token st ->
  trial_ends token w (Return out) ->
  (parseDeletedFiles out <> [] ->
   picked_item w <> Some (str "Yes, delete") ->
   r.1 = Return tt
   /\ trace r.2
      = asked pl host mapping env w st (parseDeletedFiles out)
        ++ [AppendLine (str "Operation cancelled.");
            ShowInformationMessage (str "Full sync cancelled.")]
   /\ existsb is_real_run (trace r.2) = false)
  /\ (parseDeletedFiles out = [] ->
      existsb is_confirmation (trace r.2) = false
      /\ exists rest,
           trace r.2
           = fullSync_banner host mapping
             ++ [Spawn captured (dryRunArgs pl host mapping) (spawn_env env st);
                 AppendLine (CHECK :: str " No files need to be deleted.")]
             ++ real_run_start pl host mapping env st ++ rest
           /\ forallb from_handler rest = true).
Proof.
  intros st r Hnot Hout.
  pose proof (runFullSync_flow_start pl host mapping token env w cancelled penv)
    as Hflow.
  fold st r in Hflow. cbv zeta in Hflow.
  destruct Hflow
    as [Htok Hcan|_ Hends|e kill _ Hends _|out' c rest _ Hends Hnil Hrest
        |out' _ Hends Hsome Hpick|out' _ Hends Hsome Hpick _ _
        |out' c rest _ Hends Hsome Hpick Hrest].
  - destruct (not_cancelled_contra _ _ Hnot Htok Hcan).
  - by pose proof (trial_ends_unique _ _ _ _ Hout Hends).
  - by pose proof (trial_ends_unique _ _ _ _ Hout Hends).
  - pose proof (trial_ends_unique _ _ _ _ Hout Hends) as [= ->].
    split; [done|]. intros _.
    destruct (from_handler_quiet _ Hrest) as (_ & _ & Hquiet).
    split; [|by exists rest].
    by rewrite !existsb_app, Hquiet.
  - pose proof (trial_ends_unique _ _ _ _ Hout Hends) as [= ->].
    split; [|done]. intros _ _. repeat split.
    rewrite existsb_app, asked_no_real_run. done.
  - pose proof (trial_ends_unique _ _ _ _ Hout Hends) as [= ->].
    split; [|done]. intros _ Hno. done.
  - pose proof (trial_ends_unique _ _ _ _ Hout Hends) as [= ->].
    split; [|done]. intros _ Hno. done.
Qed.

Lemma gate_declined_or_skipped_witness :
  (runFullSync posix example_host example_mapping (Some progressToken) None
     declined_sync (start false ∅)).1
  = Return tt
  /\ existsb is_real_run
       (trace
          (runFullSync posix example_host example_mapping (Some progressToken)
             None declined_sync (start false ∅)).2)
     = false
  /\ existsb is_confirmation
       (trace
          (runFullSync posix example_host example_mapping (Some progressToken)
             None clean_sync (start false ∅)).2)
     = false.
Proof.
  assert (not_cancelled (Some progressToken) (start false ∅)) as Hnot
    by (right; reflexivity).
  split; [|split].
  - apply (proj1 (gate_declined_or_skipped posix example_host example_mapping
             (Some progressToken) None declined_sync false ∅
             (str "deleting old/file.txt" ++ [LF]
              ++ str "sent 120 bytes  received 35 bytes")
             Hnot ltac:(intros args env st; reflexivity)));
      vm_compute; discriminate.
  - apply (proj1 (gate_declined_or_skipped posix example_host example_mapping
             (Some progressToken) None declined_sync false ∅
             (str "deleting old/file.txt" ++ [LF]
              ++ str "sent 120 bytes  received 35 bytes")
             Hnot ltac:(intros args env st; reflexivity)));
      vm_compute; discriminate.
  - apply (proj2 (gate_declined_or_skipped posix example_host example_mapping
             (Some progressToken) None clean_sync false ∅
             (str "sending incremental file list")
             Hnot ltac:(intros args env st; reflexivity))).
    vm_compute. reflexivity.
Defined.

(** C5.  When the trial run of a Full Sync fails, by a non-zero exit code,
    by a failure to spawn or otherwise, the invocation fails with the very
    error of the trial run, the only process it spawned is the trial run,
    and the last thing it did is report that error on the output channel. *)
Theorem trial_failure_propagates pl host mapping token env w cancelled penv e :
  let st := start cancelled penv in
  let r := runFullSync pl host mapping token env w st in
  not_cancelled token st ->
  trial_ends token w (Throw e) ->
  r.1 = Throw e
  /\ List.filter is_spawn (trace r.2)
     = [Spawn captured (dryRunArgs pl host mapping) (spawn_env env st)]
  /\ existsb is_real_run (trace r.2) = false
  /\ last (trace r.2) = Some (AppendLine (str "Error: " ++ message e)).
Proof.
  intros st r Hnot Hfail.
  pose proof (runFullSync_flow_start pl host mapping token env w cancelled penv)
    as Hflow.
  fold st r in Hflow. cbv zeta in Hflow.
  destruct Hflow
    as [Htok Hcan|_ Hends|e' kill _ Hends Hkill|out c rest _ Hends _ _
        |out _ Hends _ _|out _ Hends _ _ _ _|out c rest _ Hends _ _ _].
  - destruct (not_cancelled_contra _ _ Hnot Htok Hcan).
  - by pose proof (trial_ends_unique _ _ _ _ Hfail Hends).
  - pose proof (trial_ends_unique _ _ _ _ Hfail Hends) as [= ->].
    by destruct Hkill as [-> | ->].
  - by pose proof (trial_ends_unique _ _ _ _ Hfail Hends).
  - by pose proof (trial_ends_unique _ _ _ _ Hfail Hends).
  - by pose proof (trial_ends_unique _ _ _ _ Hfail Hends).
  - by pose proof (trial_ends_unique _ _ _ _ Hfail Hends).
Qed.

Lemma trial_failure_propagates_witness :
  (runFullSync posix example_host example_mapping (Some progressToken) None
     failed_trial (start false ∅)).1
  = Throw
      {| message := str "rsync error: some files could not be transferred" |}
  /\ existsb is_real_run
       (trace
          (runFullSync posix example_host example_mapping (Some progressToken)
             None failed_trial (start false ∅)).2)
     = false.
Proof.
  pose proof (trial_failure_propagates posix example_host example_mapping
                (Some progressToken) None failed_trial false ∅
                {| message :=
                     str "rsync error: some files could not be transferred" |}
                ltac:(right; reflexivity)
                ltac:(intros args env st; reflexivity))
    as (H1 & _ & H3 & _).
  split; [exact H1 | exact H3].
Defined.

(** * Beyond the claims: more of [rsync.ts] *)

Section MoreOfTheRunners.

Implicit Types (args : list jsstring) (token : option CancellationToken).
Implicit Types (env : option (gmap jsstring jsstring)) (evs : list event).
Implicit Types (st : state).

Lemma data_of_app evs1 evs2 : data_of (evs1 ++ evs2) = data_of evs1 ++ data_of evs2.
Proof. apply omap_app. Qed.

(** While only output arrives, the streaming run appends it and waits. *)
Lemma command_until_settled_data operationName token pre evs s :
  forallb is_data pre = true -> s_promise s = pending ->
  until_settled s_promise (command_on operationName token) (pre ++ evs) s
  = until_settled s_promise (command_on operationName token) evs
      {| s_promise := pending;
         s_state := log_all (map Append (data_of pre)) (s_state s) |}.
Proof.
  revert s. induction pre as [|ev pre IH]; intros [p st] Hpre Hp;
    cbn in Hp; subst p; [done|].
  apply andb_prop in Hpre as [Hev Hpre].
  destruct ev; try done; cbn [app until_settled command_on s_promise s_state
                                is_settled];
    by rewrite IH.
Qed.


(** The streaming run of a process that writes and then closes, in full. *)
Lemma runRsyncCommand_close args operationName token env pre code post st :
  forallb is_data pre = true ->
  let r := runRsyncCommand args operationName token env
             (pre ++ close code :: post) st in
  r.1 = (if bool_decide (code = Some 0%Z) then Return tt
         else Throw {| message := operationName ++ str " failed with code "
                                  ++ string_of_code code |})
  /\ trace r.2
     = trace st
       ++ [AppendLine (str "Running: rsync " ++ join (str " ") args);
           AppendLine [];
           Spawn streamed args (spawn_env env st)]
       ++ map Append (data_of pre) ++ close_actions operationName code
  /\ isCancellationRequested r.2 = isCancellationRequested st
  /\ process_env r.2 = process_env st.
Proof.
  intros Hpre. unfold runRsyncCommand. cbv zeta.
  rewrite (command_until_settled_data _ _ pre) by done.
  unfold close_actions.
  destruct (bool_decide (code = Some 0%Z)) eqn:Hcode;
    cbn [until_settled command_on]; rewrite Hcode;
    cbn -[log_all join string_of_code];
    rewrite log_all_trace, log_all_cancellation, log_all_env;
    cbn -[join string_of_code];
    repeat split; by rewrite <- !app_assoc.
Qed.

End MoreOfTheRunners.

Section MoreOfTheFlow.

Variable pl : platform.
Implicit Types (host : jsstring) (mapping : Mapping) (w : surroundings).
Implicit Types (token : option CancellationToken) (st : state).
Implicit Types (env : option (gmap jsstring jsstring)).

Lemma not_cancelled_cond token st :
  not_cancelled token st ->
  bool_decide (is_Some token) && isCancellationRequested st = false.
Proof.
  intros [-> | ->]; [done|]. apply andb_false_r.
Qed.

(** Where a Full Sync stands when its trial run has returned. *)
Lemma runFullSync_after_trial host mapping token env w st out :
  not_cancelled token st -> trial_ends token w (Return out) ->
  exists st2,
    trace st2
    = trace st ++ fullSync_banner host mapping
      ++ [Spawn captured (dryRunArgs pl host mapping) (spawn_env env st)]
    /\ isCancellationRequested st2 = isCancellationRequested st
    /\ process_env st2 = process_env st
    /\ runFullSync pl host mapping token env w st
       = let files := parseDeletedFiles out in
         if (0 <? length files)%nat then
           let st4 :=
             (showWarningMessage (confirmation_message (length files))
                (str "Yes, delete") token w
                (log_all (deletion_listing files) st2)).2 in
           if bool_decide (picked_item w <> Some (str "Yes, delete")) then
             (Return tt,
              log (ShowInformationMessage (str "Full sync cancelled."))
                (log (AppendLine (str "Operation cancelled.")) st4))
           else real_run pl host mapping token env w st4
         else
           real_run pl host mapping token env w
             (log (AppendLine (CHECK :: str " No files need to be deleted."))
                st2).
Proof.
  intros Hnot Hends. rewrite runFullSync_unfold. cbv zeta.
  rewrite (not_cancelled_cond _ _ Hnot).
  set (st1 := log_all (fullSync_banner host mapping) st).
  pose proof (runRsyncCommandWithOutput_effect (dryRunArgs pl host mapping)
                token env (trial_events w) st1) as (He2 & Htrial).
  specialize (Hends (dryRunArgs pl host mapping) env st1).
  destruct (runRsyncCommandWithOutput (dryRunArgs pl host mapping) token env
              (trial_events w) st1) as [c st2].
  cbn [fst snd] in He2, Htrial, Hends. subst c.
  destruct Htrial as [[Ht2 Hf2]|(_ & _ & [=])].
  exists st2. unfold st1 in *.
  rewrite log_all_trace in Ht2. rewrite log_all_cancellation in Hf2.
  rewrite log_all_env in He2.
  rewrite (spawn_env_same env st _ (log_all_env _ st)) in Ht2.
  repeat split; try done. by rewrite Ht2, <- app_assoc.
Qed.

Lemma real_run_cancelled host mapping token env w st :
  token <> None -> isCancellationRequested st = true ->
  real_run pl host mapping token env w st = (Return tt, st).
Proof.
  intros Htok Hcan. unfold real_run. rewrite Hcan.
  by destruct token.
Qed.

(** The real run of a process that writes and then closes, with the [catch]
    clause around it. *)
Lemma real_run_close host mapping token env w st pre code post :
  not_cancelled token st ->
  sync_events w = pre ++ close code :: post ->
  forallb is_data pre = true ->
  let r := real_run pl host mapping token env w st in
  r.1 = (if bool_decide (code = Some 0%Z) then Return tt
         else Throw {| message := str "Full sync failed with code "
                                  ++ string_of_code code |})
  /\ trace r.2
     = trace st ++ real_run_start pl host mapping env st
       ++ map Append (data_of pre) ++ close_actions (str "Full sync") code
       ++ (if bool_decide (code = Some 0%Z) then []
           else [AppendLine (str "Error: Full sync failed with code "
                             ++ string_of_code code)]).
Proof.
  intros Hnot Hev Hpre. unfold real_run.
  rewrite (not_cancelled_cond _ _ Hnot), Hev.
  destruct (runRsyncCommand_close (syncArgs pl host mapping) (str "Full sync")
              token env pre code post st Hpre) as (Hc & Ht & _).
  destruct (runRsyncCommand (syncArgs pl host mapping) (str "Full sync") token
              env (pre ++ close code :: post) st) as [c st'].
  cbn [fst snd] in Hc, Ht. subst c.
  case_bool_decide; cbn [fst snd trace log message].
  - split; [done|]. rewrite Ht. unfold real_run_start.
    by rewrite app_nil_r.
  - split; [done|]. rewrite Ht. unfold real_run_start.
    by rewrite <- !app_assoc.
Qed.

End MoreOfTheFlow.

(** X1.  A Full Sync called with a token that is already cancelled writes
    its banner and returns: it spawns nothing and asks nothing. *)
Theorem fullSync_cancelled_before_start pl host mapping env w penv :
  let r := runFullSync pl host mapping (Some progressToken) env w
             (start true penv) in
  r.1 = Return tt
  /\ trace r.2 = fullSync_banner host mapping
  /\ existsb is_spawn (trace r.2) = false
  /\ existsb is_confirmation (trace r.2) = false.
Proof.
  cbv zeta. rewrite runFullSync_unfold. cbv zeta.
  assert (bool_decide (is_Some (Some progressToken))
          && isCancellationRequested (start true penv) = true) as -> by done.
  cbn [fst snd]. rewrite log_all_trace. done.
Qed.

(** X2.  When the token is cancelled while the modal warning is open, the
    real run is not spawned whatever is picked there; with [Yes, delete]
    picked the invocation returns without a further word. *)
Theorem fullSync_cancelled_at_prompt pl host mapping env w penv out :
  let st := start false penv in
  let r := runFullSync pl host mapping (Some progressToken) env w st in
  trial_ends (Some progressToken) w (Return out) ->
  parseDeletedFiles out <> [] ->
  cancelled_at_prompt w = true ->
  r.1 = Return tt
  /\ existsb is_real_run (trace r.2) = false
  /\ (picked_item w = Some (str "Yes, delete") ->
      trace r.2 = asked pl host mapping env w st (parseDeletedFiles out)).
Proof.
  intros st r Hends Hfiles Hcancel.
  destruct (runFullSync_after_trial pl host mapping (Some progressToken) env w
              st out) as (st2 & Ht2 & Hf2 & He2 & Hrun);
    [by right | done |].
  unfold r. rewrite Hrun. cbv zeta.
  destruct (parseDeletedFiles out) as [|f files] eqn:Hout; [done|].
  cbn [length Nat.ltb Nat.leb].
  destruct (showWarningMessage_effect
              (confirmation_message (S (length files))) (str "Yes, delete")
              (Some progressToken) w
              (log_all (deletion_listing (f :: files)) st2)) as (Ht4 & _ & _).
  assert (isCancellationRequested
            (showWarningMessage (confirmation_message (S (length files)))
               (str "Yes, delete") (Some progressToken) w
               (log_all (deletion_listing (f :: files)) st2)).2 = true) as Hf4.
  { unfold showWarningMessage. cbn [snd]. by rewrite Hcancel. }
  set (st4 := (showWarningMessage _ _ _ w _).2) in *.
  assert (trace st4 = asked pl host mapping env w st (f :: files)) as Hasked.
  { rewrite Ht4, log_all_trace, Ht2. unfold asked.
    cbn [start trace app length]. by rewrite <- !app_assoc. }
  case_bool_decide as Hpick.
  - cbn [fst snd trace log]. rewrite Hasked. split; [done|]. split; [|done].
    by rewrite !existsb_app, asked_no_real_run.
  - rewrite real_run_cancelled by done. cbn [fst snd].
    rewrite Hasked. split; [done|]. split; [|done].
    apply asked_no_real_run.
Qed.

Lemma fullSync_cancelled_at_prompt_witness :
  existsb is_real_run
    (trace
       (runFullSync posix example_host example_mapping (Some progressToken)
          None cancelled_while_asked (start false ∅)).2)
  = false.
Proof.
  apply (fullSync_cancelled_at_prompt posix example_host example_mapping None
           cancelled_while_asked ∅
           (str "deleting old/file.txt" ++ [LF]
            ++ str "sent 120 bytes  received 35 bytes")).
  - intros args env st. reflexivity.
  - vm_compute. discriminate.
  - reflexivity.
Defined.

(** X3.  Conversely to the gate: when the trial run succeeded and the gate
    is open (nothing to delete, or [Yes, delete] picked and no cancellation
    meanwhile), the real run is spawned, on [syncArgs], as the second and
    last process of the invocation. *)
Theorem open_gate_runs_real_sync pl host mapping token env w cancelled penv out :
  let st := start cancelled penv in
  let r := runFullSync pl host mapping token env w st in
  not_cancelled token st ->
  trial_ends token w (Return out) ->
  gate_open token w out ->
  List.filter is_spawn (trace r.2)
  = [Spawn captured (dryRunArgs pl host mapping) (spawn_env env st);
     Spawn streamed (syncArgs pl host mapping) (spawn_env env st)].
Proof.
  intros st r Hnot Hout Hgate.
  pose proof (runFullSync_flow_start pl host mapping token env w cancelled penv)
    as Hflow.
  fold st r in Hflow. cbv zeta in Hflow.
  assert (forall files,
            List.filter is_spawn (asked pl host mapping env w st files)
            = [Spawn captured (dryRunArgs pl host mapping) (spawn_env env st)])
    as Hasked.
  { intros files. unfold asked, deletion_listing.
    rewrite !List.filter_app. cbn.
    by induction files. }
  assert (forall rest, forallb from_handler rest = true ->
                       List.filter is_spawn rest = []) as Hquiet.
  { induction rest as [|a rest IH]; [done|].
    intros [Ha Hr]%andb_prop. cbn. rewrite (IH Hr). by destruct a. }
  destruct Hflow
    as [Htok Hcan|_ Hends|e kill _ Hends _|out' c rest _ Hends Hnil Hrest
        |out' _ Hends Hsome Hpick|out' _ Hends Hsome Hpick Htok Hcan
        |out' c rest _ Hends Hsome Hpick Hrest].
  - destruct (not_cancelled_contra _ _ Hnot Htok Hcan).
  - by pose proof (trial_ends_unique _ _ _ _ Hout Hends).
  - by pose proof (trial_ends_unique _ _ _ _ Hout Hends).
  - rewrite !List.filter_app, (Hquiet _ Hrest). done.
  - pose proof (trial_ends_unique _ _ _ _ Hout Hends) as [= ->].
    by destruct Hgate as [Hnil|[Hyes _]].
  - pose proof (trial_ends_unique _ _ _ _ Hout Hends) as [= ->].
    destruct Hgate as [Hnil|[_ [Hno| ->]]]; [done|congruence|done].
  - rewrite !List.filter_app, Hasked, (Hquiet _ Hrest). done.
Qed.

Lemma open_gate_runs_real_sync_witness :
  List.filter is_spawn
    (trace
       (runFullSync posix example_host example_mapping (Some progressToken)
          None confirmed_sync (start false ∅)).2)
  = [Spawn captured (dryRunArgs posix example_host example_mapping)
       (spawn_env None (start false ∅));
     Spawn streamed (syncArgs posix example_host example_mapping)
       (spawn_env None (start false ∅))].
Proof.
  apply (open_gate_runs_real_sync posix example_host example_mapping
           (Some progressToken) None confirmed_sync false ∅
           (str "deleting old/file.txt" ++ [LF]
            ++ str "sent 120 bytes  received 35 bytes")).
  - right. reflexivity.
  - intros args env st. reflexivity.
  - right. split; [reflexivity | left; reflexivity].
Defined.

(** X4.  With the gate open, a Full Sync ends as its real run does: it
    returns when [rsync] exits with 0, with the status bar message as its
    last act; otherwise it throws [Full sync failed with code N] after
    showing [Full sync failed.] and writing the error once more, prefixed
    with [Error: ], from its [catch] clause. *)
Theorem fullSync_ends_as_real_run
    pl host mapping token env w cancelled penv out pre code post :
  let st := start cancelled penv in
  let r := runFullSync pl host mapping token env w st in
  not_cancelled token st ->
  trial_ends token w (Return out) ->
  gate_open token w out ->
  sync_events w = pre ++ close code :: post ->
  forallb is_data pre = true ->
  r.1 = (if bool_decide (code = Some 0%Z) then Return tt
         else Throw {| message := str "Full sync failed with code "
                                  ++ string_of_code code |})
  /\ exists before,
       trace r.2
       = before ++ map Append (data_of pre)
         ++ close_actions (str "Full sync") code
         ++ (if bool_decide (code = Some 0%Z) then []
             else [AppendLine (str "Error: Full sync failed with code "
                               ++ string_of_code code)]).
Proof.
  intros st r Hnot Hout Hgate Hev Hpre.
  destruct (runFullSync_after_trial pl host mapping token env w st out Hnot Hout)
    as (st2 & Ht2 & Hf2 & He2 & Hrun).
  unfold r. rewrite Hrun. cbv zeta. clear Hrun.
  assert (forall st', isCancellationRequested st' = isCancellationRequested st
                      \/ token = None ->
                      not_cancelled token st') as Hstill.
  { intros st' [Hst' | ->]; [|by left].
    destruct Hnot as [-> | Hc]; [by left|]. right. congruence. }
  destruct (0 <? length (parseDeletedFiles out))%nat eqn:Hlen.
  - destruct Hgate as [Hnil|(Hyes & Hquiet)]; [by rewrite Hnil in Hlen|].
    rewrite bool_decide_eq_false_2 by (by intros Hno).
    match goal with
    | |- context [real_run pl host mapping token env w ?s] =>
        destruct (real_run_close pl host mapping token env w s pre code post)
          as (Hc & Ht); [|done|done|]
    end.
    { apply Hstill. unfold showWarningMessage. cbn [snd].
      destruct Hquiet as [-> | ->]; [|by right]. left.
      cbn [andb log isCancellationRequested].
      by rewrite log_all_cancellation. }
    cbv zeta in Hc, Ht. rewrite Hc, Ht. split; [done|].
    eexists. by rewrite app_assoc.
  - match goal with
    | |- context [real_run pl host mapping token env w ?s] =>
        destruct (real_run_close pl host mapping token env w s pre code post)
          as (Hc & Ht); [|done|done|]
    end.
    { apply Hstill. by left. }
    cbv zeta in Hc, Ht. rewrite Hc, Ht. split; [done|].
    eexists. by rewrite app_assoc.
Qed.

Lemma fullSync_ends_as_real_run_witness :
  (runFullSync posix example_host example_mapping (Some progressToken) None
     failing_sync (start false ∅)).1
  = Throw {| message := str "Full sync failed with code 12" |}.
Proof.
  apply (fullSync_ends_as_real_run posix example_host example_mapping
           (Some progressToken) None failing_sync false ∅
           (str "sending incremental file list")
           [stdout_data (str "sending incremental file list");
            stderr_data (str "rsync: connection unexpectedly closed")]
           (Some 12%Z) []).
  - right. reflexivity.
  - intros args env st. reflexivity.
  - left. reflexivity.
  - reflexivity.
  - reflexivity.
Defined.

(** X5.  Whatever happens, a Full Sync spawns at most two processes, and in
    this order: the trial run on [dryRunArgs], then the real run on
    [syncArgs]. *)
Theorem fullSync_spawns_at_most_twice pl host mapping token env w cancelled penv :
  let st := start cancelled penv in
  let r := runFullSync pl host mapping token env w st in
  List.filter is_spawn (trace r.2)
  `prefix_of`
  [Spawn captured (dryRunArgs pl host mapping) (spawn_env env st);
   Spawn streamed (syncArgs pl host mapping) (spawn_env env st)].
Proof.
  intros st r.
  pose proof (runFullSync_flow_start pl host mapping token env w cancelled penv)
    as Hflow.
  fold st r in Hflow. cbv zeta in Hflow.
  assert (forall files,
            List.filter is_spawn (asked pl host mapping env w st files)
            = [Spawn captured (dryRunArgs pl host mapping) (spawn_env env st)])
    as Hasked.
  { intros files. unfold asked, deletion_listing.
    rewrite !List.filter_app. cbn.
    by induction files. }
  assert (forall rest, forallb from_handler rest = true ->
                       List.filter is_spawn rest = []) as Hquiet.
  { induction rest as [|a rest IH]; [done|].
    intros [Ha Hr]%andb_prop. cbn. rewrite (IH Hr). by destruct a. }
  destruct Hflow
    as [_ _|_ _|e kill _ _ Hkill|out c rest _ _ _ Hrest
        |out _ _ _ _|out _ _ _ _ _ _|out c rest _ _ _ _ Hrest].
  - by eexists.
  - by eexists [_].
  - destruct Hkill as [-> | ->]; by eexists [_].
  - rewrite !List.filter_app, (Hquiet _ Hrest). by exists [].
  - rewrite !List.filter_app, Hasked. by eexists [_].
  - rewrite Hasked. by eexists [_].
  - rewrite !List.filter_app, Hasked, (Hquiet _ Hrest). by exists [].
Qed.

(** X6.  A Safe Sync writes its banner and its command line, spawns one
    process, on [safeArgs], and from then on only the handlers of that
    process act: it never asks for a confirmation and never runs a trial.
    It ends as that process does: it returns on exit code 0 and throws
    [Safe sync failed with code N] otherwise. *)
Theorem safeSync_runs_once pl host mapping token env evs st :
  let r := runSafeSync pl host mapping token env evs st in
  (exists rest,
     trace r.2
     = trace st ++ safeSync_banner host mapping
       ++ safe_run_start pl host mapping env st ++ rest
     /\ forallb from_handler rest = true
     /\ List.filter is_spawn
          (safeSync_banner host mapping
           ++ safe_run_start pl host mapping env st ++ rest)
        = [Spawn streamed (safeArgs pl host mapping) (spawn_env env st)]
     /\ existsb is_confirmation
          (safeSync_banner host mapping
           ++ safe_run_start pl host mapping env st ++ rest)
        = false)
  /\ (forall pre code post,
        evs = pre ++ close code :: post -> forallb is_data pre = true ->
        r.1 = (if bool_decide (code = Some 0%Z) then Return tt
               else Throw {| message := str "Safe sync failed with code "
                                        ++ string_of_code code |})).
Proof.
  intros r. split.
  - destruct (runSafeSync_effect pl host mapping token env evs st)
      as (rest & Ht & Hrest).
    exists rest. split; [exact Ht|]. split; [done|].
    destruct (from_handler_quiet _ Hrest) as (_ & _ & Hconf).
    rewrite !List.filter_app, !existsb_app, Hconf.
    split; [|done]. cbn.
    clear Ht Hconf. induction rest as [|a rest IH]; [done|].
    apply andb_prop in Hrest as [Ha Hrest]. cbn.
    destruct a; try done; by apply IH.
  - intros pre code post -> Hpre.
    unfold r, runSafeSync, bind, appendLine, perform. cbv zeta. cbn [fst snd].
    match goal with
    | |- context [runRsyncCommand ?a ?o ?t ?e ?evs ?s] =>
        destruct (runRsyncCommand_close a o t e pre code post s Hpre)
          as (Hc & _);
        destruct (runRsyncCommand a o t e evs s) as [c st']
    end.
    cbn [fst] in Hc |- *. by subst c.
Qed.

Lemma safeSync_runs_once_witness :
  (runSafeSync posix example_host example_mapping None None
     [stdout_data (str "sending incremental file list"); close (Some 23%Z)]
     (start false ∅)).1
  = Throw {| message := str "Safe sync failed with code 23" |}.
Proof.
  apply (proj2 (safeSync_runs_once posix example_host example_mapping None None
                  [stdout_data (str "sending incremental file list");
                   close (Some 23%Z)] (start false ∅))
           [stdout_data (str "sending incremental file list")]
           (Some 23%Z) []).
  - reflexivity.
  - reflexivity.
Defined.

(** X7.  The streaming run passes every chunk the process writes, of
    standard output and of standard error alike, to the output channel in
    the order of arrival, after the line with the command and before the
    lines that report how the process ended; it leaves the token as it is. *)
Theorem streaming_run_passes_output_on
    args operationName token env pre code post st :
  forallb is_data pre = true ->
  let r := runRsyncCommand args operationName token env
             (pre ++ close code :: post) st in
  trace r.2
  = trace st
    ++ [AppendLine (str "Running: rsync " ++ join (str " ") args);
        AppendLine [];
        Spawn streamed args (spawn_env env st)]
    ++ map Append (data_of pre) ++ close_actions operationName code
  /\ isCancellationRequested r.2 = isCancellationRequested st.
Proof.
  intros Hpre r.
  by destruct (runRsyncCommand_close args operationName token env pre code post
                 st Hpre) as (_ & Ht & Hf & _).
Qed.

Lemma streaming_run_passes_output_on_witness :
  trace
    (runRsyncCommand [str "-avzP"] (str "Safe sync") None None
       [stdout_data (str "a.txt"); stderr_data (str "skipping b");
        stdout_data (str "c.txt"); close (Some 0%Z)] (start false ∅)).2
  = [AppendLine (str "Running: rsync -avzP"); AppendLine [];
     Spawn streamed [str "-avzP"] ∅;
     Append (str "a.txt"); Append (str "skipping b"); Append (str "c.txt");
     AppendLine [];
     AppendLine (CHECK :: str " Safe sync completed successfully.");
     SetStatusBarMessage (str "Safe sync completed successfully.") 5000].
Proof.
  pose proof (streaming_run_passes_output_on [str "-avzP"] (str "Safe sync")
                None None
                [stdout_data (str "a.txt"); stderr_data (str "skipping b");
                 stdout_data (str "c.txt")] (Some 0%Z) [] (start false ∅)
                eq_refl) as [Ht _].
  refine (eq_trans Ht _). vm_compute. reflexivity.
Defined.

(** X8.  The capturing run shows nothing: all it adds to the trace is its
    spawn, followed by a kill exactly when a cancellation rejected it.
    Unless that happens it leaves the flag of the token as it is, and
    without a token a cancellation request changes nothing. *)
Theorem capturing_run_is_silent args token env evs st :
  let r := runRsyncCommandWithOutput args token env evs st in
  (trace r.2 = trace st ++ [Spawn captured args (spawn_env env st)]
   /\ isCancellationRequested r.2 = isCancellationRequested st)
  \/ (token = Some progressToken
      /\ trace r.2
         = trace st ++ [Spawn captured args (spawn_env env st); Kill captured]
      /\ r.1 = Throw {| message := str "Operation cancelled" |}).
Proof.
  intros r.
  by destruct (runRsyncCommandWithOutput_effect args token env evs st)
    as (_ & H).
Qed.



(** X10.  The environment of a spawned process is [process.env] with the
    entries of [env] laid over it: a variable given in [env] has the value
    given there, any other variable its inherited value; both runs spawn
    with that environment. *)
Theorem spawned_environment args operationName token env evs st (k : jsstring) :
  Spawn captured args (spawn_env env st)
  ∈ trace (runRsyncCommandWithOutput args token env evs st).2
  /\ Spawn streamed args (spawn_env env st)
     ∈ trace (runRsyncCommand args operationName token env evs st).2
  /\ spawn_env env st !! k
     = match env with
       | Some given =>
           match given !! k with
           | Some v => Some v
           | None => process_env st !! k
           end
       | None => process_env st !! k
       end.
Proof.
  split; [|split].
  - destruct (runRsyncCommandWithOutput_effect args token env evs st)
      as (_ & [[-> _]|(_ & -> & _)]);
      rewrite elem_of_app; right; apply list_elem_of_here.
  - destruct (runRsyncCommand_effect args operationName token env evs st)
      as (rest & -> & _).
    rewrite !elem_of_app. right. left. do 2 right. apply list_elem_of_here.
  - unfold spawn_env. rewrite lookup_union.
    destruct env as [given|]; cbn.
    + by destruct (given !! k), (process_env st !! k).
    + rewrite lookup_empty. by destruct (process_env st !! k).
Qed.

(** * Beyond the claims: paths and parser *)

Section MoreOnStrings.

Implicit Types s t p : jsstring.

Lemma trimStart_app s t :
  trimStart (s ++ t) = if truthy (trimStart s) then trimStart s ++ t
                       else trimStart t.
Proof.
  induction s as [|c s IH]; [done|]. cbn.
  destruct (isWhiteSpace c); [exact IH | done].
Qed.

Lemma trimStart_fixed t :
  (forall c, head t = Some c -> isWhiteSpace c = false) -> trimStart t = t.
Proof.
  destruct t as [|c t]; [done|]. intros H. cbn. by rewrite (H c).
Qed.

Lemma trimEnd_fixed t :
  (forall c, last t = Some c -> isWhiteSpace c = false) -> trimEnd t = t.
Proof.
  intros H. unfold trimEnd. rewrite trimStart_fixed.
  - apply reverse_involutive.
  - intros c Hc. apply H. by rewrite <- head_reverse.
Qed.

Lemma trim_idempotent s : trim (trim s) = trim s.
Proof.
  destruct (trim_decompose s) as (_ & _ & _ & _ & _ & Hh & Hl).
  unfold trim at 1. rewrite (trimStart_fixed _ Hh). by apply trimEnd_fixed.
Qed.

Lemma trimStart_white c : isWhiteSpace c = true -> trimStart [c] = [].
Proof. intros H. cbn. by rewrite H. Qed.

(** White space at the end of a line does not count. *)
Lemma trim_snoc s c : isWhiteSpace c = true -> trim (s ++ [c]) = trim s.
Proof.
  intros Hc. unfold trim, trimEnd. rewrite trimStart_app.
  destruct (trimStart s) as [|x t] eqn:Hs; cbn [truthy].
  - by rewrite (trimStart_white c Hc).
  - rewrite reverse_snoc. cbn [trimStart]. by rewrite Hc.
Qed.

(** What [trim] keeps is a stretch of what it was given. *)
Lemma trim_elem s c : c ∈ trim s -> c ∈ s.
Proof.
  destruct (trim_decompose s) as (l & r & Hs & _).
  intros Hc. rewrite Hs, !elem_of_app. auto.
Qed.

End MoreOnStrings.

(** X11.  [ensureTrailingSlash] only ever appends: its argument is a prefix
    of its result, which is at most one code unit longer and ends with a
    separator; applying it twice is the same as applying it once. *)
Theorem ensureTrailingSlash_idempotent pl p :
  ensureTrailingSlash pl (ensureTrailingSlash pl p) = ensureTrailingSlash pl p
  /\ p `prefix_of` ensureTrailingSlash pl p
  /\ (length (ensureTrailingSlash pl p) <= S (length p))%nat
  /\ (0 < trailingSeparators pl (ensureTrailingSlash pl p))%nat.
Proof.
  pose proof (ensureTrailingSlash_separators pl p) as Hsep.
  repeat split.
  - rewrite (ensureTrailingSlash_spec pl (ensureTrailingSlash pl p)), Hsep.
    by destruct (trailingSeparators pl p).
  - rewrite ensureTrailingSlash_spec.
    destruct (0 <? trailingSeparators pl p)%nat; [done | by eexists].
  - rewrite ensureTrailingSlash_spec.
    destruct (0 <? trailingSeparators pl p)%nat; [lia|].
    change (str "/") with [SLASH]. rewrite length_app. cbn. lia.
  - rewrite Hsep. lia.
Qed.

(** X12.  Every path [parseDeletedFiles] returns is non-empty, lies within
    one line (it holds no line feed) and does not end with white space. *)
Theorem deleted_paths_are_proper output p :
  p ∈ parseDeletedFiles output ->
  p <> []
  /\ (LF ∉ p)
  /\ (forall c, last p = Some c -> isWhiteSpace c = false).
Proof.
  rewrite parseDeletedFiles_parseDeletions. unfold parseDeletions.
  intros (line & Hline & Hrec)%list_elem_of_omap.
  apply deletion_record_Some in Hrec.
  destruct (trim_decompose line) as (l & r & Hdec & _ & _ & _ & Hlast).
  assert (p <> []) as Hp.
  { intros ->. rewrite app_nil_r in Hrec. specialize (Hlast 32).
    rewrite Hrec in Hlast. by specialize (Hlast eq_refl). }
  split; [done|]. split.
  - intros Hlf.
    pose proof (split_pieces LF output) as Hpieces.
    rewrite Forall_forall in Hpieces. apply (Hpieces line Hline).
    apply trim_elem. rewrite Hrec, elem_of_app. by right.
  - intros c Hc. apply Hlast. rewrite Hrec, last_app, Hc. done.
Qed.

Lemma deleted_paths_are_proper_witness :
  str "old/file.txt" <> []
  /\ (LF ∉ str "old/file.txt")
  /\ (forall c, last (str "old/file.txt") = Some c -> isWhiteSpace c = false).
Proof.
  apply (deleted_paths_are_proper
           (str "sending incremental file list" ++ [LF]
            ++ str "deleting old/file.txt  " ++ [CR; LF] ++ str "deleting ")).
  vm_compute. apply list_elem_of_here.
Defined.

(** X13.  Output with CR LF line ends parses like the same lines with LF
    line ends. *)
Theorem parseDeletedFiles_crlf (lines : list jsstring) :
  Forall (fun line => LF ∉ line) lines ->
  parseDeletedFiles (join [CR; LF] lines) = parseDeletedFiles (join [LF] lines).
Proof.
  induction lines as [|x [|y lines] IH]; intros Hlines; [done | done |].
  inversion Hlines as [|? ? Hx Hrest]; subst.
  change (join [CR; LF] (x :: y :: lines))
    with (x ++ [CR; LF] ++ join [CR; LF] (y :: lines)).
  change (join [LF] (x :: y :: lines))
    with (x ++ [LF] ++ join [LF] (y :: lines)).
  replace (x ++ [CR; LF] ++ join [CR; LF] (y :: lines))
    with ((x ++ [CR]) ++ LF :: join [CR; LF] (y :: lines))
    by (by rewrite <- app_assoc).
  change (x ++ [LF] ++ join [LF] (y :: lines))
    with (x ++ LF :: join [LF] (y :: lines)).
  rewrite !parseDeletedFiles_app, (IH Hrest). f_equal.
  rewrite !parseDeletedFiles_one_line.
  - unfold deletion_record. by rewrite trim_snoc.
  - done.
  - rewrite elem_of_app, list_elem_of_singleton. intros [?|[=]]. done.
Qed.

Lemma parseDeletedFiles_crlf_witness :
  parseDeletedFiles
    (join [CR; LF]
       [str "sending incremental file list"; str "deleting old/file.txt";
        str "deleting tmp/"])
  = parseDeletedFiles
      (join [LF]
         [str "sending incremental file list"; str "deleting old/file.txt";
          str "deleting tmp/"]).
Proof.
  apply parseDeletedFiles_crlf.
  repeat (constructor;
          [vm_compute; intros H;
           repeat (apply elem_of_cons in H as [H|H]; [done|]);
           by apply not_elem_of_nil in H|]).
  constructor.
Defined.

(** X14.  The parser of the earlier revision returned the matching lines
    themselves, trimmed, with ["deleting "] still in front: what the current
    parser returns with that prefix put back. *)
Theorem earlier_parser_returns_whole_lines output :
  Earlier.parseDeletedFiles output
  = List.filter (fun t => startsWith t (str "deleting "))
      (map trim (split LF output))
  /\ Earlier.parseDeletedFiles output
     = map (fun p => str "deleting " ++ p) (parseDeletedFiles output)
  /\ length (Earlier.parseDeletedFiles output)
     = length (parseDeletedFiles output).
Proof.
  split; [|split].
  - unfold Earlier.parseDeletedFiles.
    generalize (split LF output). intros lines.
    assert (forall files,
              fold_left
                (fun files line =>
                   let trimmed := trim line in
                   if startsWith trimmed (str "deleting ")
                   then push files [trimmed]
                   else files)
                lines files
              = files ++ List.filter (fun t => startsWith t (str "deleting "))
                           (map trim lines)) as Hloop.
    { induction lines as [|line lines IH]; intros files; cbn.
      - by rewrite app_nil_r.
      - rewrite IH. cbv zeta.
        destruct (startsWith (trim line) (str "deleting ")); [|done].
        unfold push. by rewrite <- app_assoc. }
    apply (Hloop []).
  - apply earlier_parseDeletedFiles_keeps_prefix.
  - by rewrite earlier_parseDeletedFiles_keeps_prefix, length_map.
Qed.

(** * Beyond the claims: the session state *)

(** X15.  The password cache: [getPassword] returns what [setPassword] last
    stored for the prompt, the last of two values when it is stored twice;
    other prompts keep theirs; [resetPasswords] forgets them all.  None of
    the three touches the server choices or fires [onDidChange]. *)
Theorem password_cache (prompt prompt' password password' : jsstring)
    (this : SessionState.t) :
  SessionState.getPassword prompt (SessionState.setPassword prompt password this)
  = Some password
  /\ SessionState.setPassword prompt password'
       (SessionState.setPassword prompt password this)
     = SessionState.setPassword prompt password' this
  /\ (prompt' <> prompt ->
      SessionState.getPassword prompt'
        (SessionState.setPassword prompt password this)
      = SessionState.getPassword prompt' this)
  /\ SessionState.getPassword prompt'
       (SessionState.resetPasswords
          (SessionState.setPassword prompt password this))
     = None
  /\ (forall key,
        SessionState.get key (SessionState.setPassword prompt password this)
        = SessionState.get key this
        /\ SessionState.get key (SessionState.resetPasswords this)
           = SessionState.get key this)
  /\ SessionState._onDidChange (SessionState.setPassword prompt password this)
     = SessionState._onDidChange this
  /\ SessionState._onDidChange (SessionState.resetPasswords this)
     = SessionState._onDidChange this.
Proof.
  unfold SessionState.getPassword, SessionState.setPassword,
    SessionState.resetPasswords, SessionState.get. cbn.
  repeat split.
  - apply lookup_insert_eq.
  - by rewrite insert_insert_eq.
  - intros Hne. by apply lookup_insert_ne.
Qed.

Lemma password_cache_witness :
  SessionState.getPassword (str "user@10.0.0.5's password:")
    (SessionState.setPassword (str "Enter passphrase for key:") (str "hunter2")
       (SessionState.setPassword (str "user@10.0.0.5's password:")
          (str "secret") SessionState.create))
  = Some (str "secret").
Proof.
  pose proof (password_cache
                (str "Enter passphrase for key:")
                (str "user@10.0.0.5's password:") (str "hunter2") []
                (SessionState.setPassword (str "user@10.0.0.5's password:")
                   (str "secret") SessionState.create))
    as (_ & _ & Hframe & _).
  rewrite Hframe by (vm_compute; discriminate).
  vm_compute. reflexivity.
Defined.

(** X16.  How calls of [set] compose: a call repeated at once changes
    nothing more; of two values set for a key the second is the one [get]
    returns; calls for different keys can be swapped. *)
Theorem SessionState_set_composes (k1 k2 v1 v2 : jsstring)
    (this : SessionState.t) :
  SessionState.set k1 v1 (SessionState.set k1 v1 this)
  = SessionState.set k1 v1 this
  /\ SessionState.get k1 (SessionState.set k1 v2 (SessionState.set k1 v1 this))
     = Some v2
  /\ (k1 <> k2 ->
      SessionState.set k1 v1 (SessionState.set k2 v2 this)
      = SessionState.set k2 v2 (SessionState.set k1 v1 this)).
Proof.
  assert (forall k v s, SessionState.get k (SessionState.set k v s) = Some v)
    as Hget.
  { intros k v s. unfold SessionState.set, SessionState.get. cbn zeta.
    case_bool_decide as Hc; cbn; [apply lookup_insert_eq | done]. }
  split; [|split].
  - unfold SessionState.set at 1. cbn zeta.
    fold (SessionState.get k1 (SessionState.set k1 v1 this)).
    rewrite Hget. by rewrite bool_decide_eq_false_2 by (by intros ?).
  - apply Hget.
  - intros Hne. unfold SessionState.set. cbn zeta.
    destruct (bool_decide (SessionState._serverChoice this !! k2 <> Some v2))
      eqn:H2;
      destruct (bool_decide (SessionState._serverChoice this !! k1 <> Some v1))
        eqn:H1; cbn;
      rewrite ?lookup_insert_ne by done; rewrite ?H1, ?H2; try done.
    by rewrite insert_insert_ne.
Qed.

Lemma SessionState_set_composes_witness :
  SessionState.set (str "/a") (str "prod")
    (SessionState.set (str "/b") (str "staging") SessionState.create)
  = SessionState.set (str "/b") (str "staging")
      (SessionState.set (str "/a") (str "prod") SessionState.create).
Proof.
  apply SessionState_set_composes. vm_compute. discriminate.
Defined.

(** * Beyond the claims: servers and mappings *)

Section ExcludesFacts.

Lemma excludes_of_Some (input : jsstring) :
  Selector.excludes_of (Some input)
  = List.filter truthy (map trim (split COMMA input)).
Proof. by destruct input. Qed.

Lemma truthy_nonempty (s : jsstring) : truthy s = true <-> s <> [].
Proof. by destruct s. Qed.

End ExcludesFacts.

(** X17.  The exclusions typed into the input box are cut at the commas,
    each piece trimmed, and the empty pieces dropped, in order: no pattern is
    empty, holds a comma or starts or ends with white space; no input, or an
    empty one, gives no pattern. *)
Theorem excludes_of_spec :
  (forall a b,
     Selector.excludes_of (Some (a ++ COMMA :: b))
     = Selector.excludes_of (Some a) ++ Selector.excludes_of (Some b))
  /\ (forall piece,
        COMMA ∉ piece ->
        Selector.excludes_of (Some piece)
        = if truthy (trim piece) then [trim piece] else [])
  /\ (forall input e,
        e ∈ Selector.excludes_of input ->
        e <> [] /\ (COMMA ∉ e) /\ trim e = e)
  /\ Selector.excludes_of None = []
  /\ Selector.excludes_of (Some []) = [].
Proof.
  split; [|split; [|split; [|done]]].
  - intros a b. rewrite !excludes_of_Some, split_app, map_app.
    apply List.filter_app.
  - intros piece Hpiece. rewrite excludes_of_Some, split_no_sep by done. done.
  - intros [input|] e He; [|by apply not_elem_of_nil in He].
    rewrite excludes_of_Some in He.
    apply list_elem_of_In, filter_In in He as [He Hne].
    apply list_elem_of_In, list_elem_of_fmap in He as (piece & -> & Hpiece).
    split; [by apply truthy_nonempty|]. split; [|apply trim_idempotent].
    intros Hc. apply trim_elem in Hc.
    pose proof (split_pieces COMMA input) as Hall.
    rewrite Forall_forall in Hall. by apply (Hall piece).
Qed.

Lemma excludes_of_spec_witness :
  Selector.excludes_of (Some (str ".git, node_modules,, *.log "))
  = [str ".git"; str "node_modules"; str "*.log"].
Proof.
  destruct excludes_of_spec as (Happ & Hone & _).
  change (str ".git, node_modules,, *.log ")
    with (str ".git" ++ COMMA :: str " node_modules" ++ COMMA :: []
          ++ COMMA :: str " *.log ").
  rewrite !Happ, !Hone; [reflexivity|..];
    vm_compute; intros H;
    repeat (apply elem_of_cons in H as [H|H]; [done|]);
    by apply not_elem_of_nil in H.
Defined.

Section SelectorFacts.

Variables path_normalize toLowerCase : jsstring -> jsstring.

Implicit Types (config : Config.WWConfig) (serverConfig : Config.ServerConfig).
Implicit Types (name serverAlias folder : jsstring) (m : Mapping).

Lemma scan_mappings_spec normalizedPath name (mappings : list Mapping)
    (matches : list jsstring) :
  Selector.scan_mappings path_normalize toLowerCase normalizedPath name
    mappings matches
  = if existsb
         (fun m =>
            bool_decide
              (Selector.normalizePath path_normalize toLowerCase (local m)
               = normalizedPath)) mappings
    then matches ++ [name] else matches.
Proof.
  induction mappings as [|m mappings IH]; [done|]. cbn.
  by case_bool_decide.
Qed.

Lemma findServersForPath_filter config folder :
  Selector.findServersForPath path_normalize toLowerCase config folder
  = map fst
      (List.filter
         (fun entry =>
            Selector.maps_folder path_normalize toLowerCase folder entry.2)
         (Config.servers config)).
Proof.
  unfold Selector.findServersForPath. cbv zeta.
  generalize (Config.servers config). intros servers.
  assert (forall matches,
            fold_left
              (fun matches entry =>
                 Selector.scan_mappings path_normalize toLowerCase
                   (Selector.normalizePath path_normalize toLowerCase folder)
                   entry.1 (Config.mappings entry.2) matches)
              servers matches
            = matches
              ++ map fst
                   (List.filter
                      (fun entry =>
                         Selector.maps_folder path_normalize toLowerCase folder
                           entry.2) servers)) as Hloop.
  { induction servers as [|[name sc] servers IH]; intros matches; cbn.
    - by rewrite app_nil_r.
    - rewrite IH, scan_mappings_spec. unfold Selector.maps_folder.
      destruct (existsb _ (Config.mappings sc)); [|done].
      cbn. by rewrite <- app_assoc. }
  apply (Hloop []).
Qed.

Lemma own_elem name serverConfig (servers : list (jsstring * Config.ServerConfig)) :
  Config.own name servers = Some serverConfig -> (name, serverConfig) ∈ servers.
Proof.
  induction servers as [|[n sc] servers IH]; [done|]. cbn.
  case_bool_decide as Hn.
  - intros [= ->]. subst n. apply list_elem_of_here.
  - intros H. apply list_elem_of_further. by apply IH.
Qed.

Lemma own_push_mapping serverAlias m (servers : list (jsstring * Config.ServerConfig)) :
  Config.own serverAlias (Selector.push_mapping serverAlias m servers)
  = (fun sc => {| Config.host := Config.host sc;
                  Config.shell := Config.shell sc;
                  Config.mappings := Config.mappings sc ++ [m] |})
    <$> Config.own serverAlias servers.
Proof.
  induction servers as [|[n sc] servers IH]; [done|]. cbn.
  case_bool_decide as Hn; cbn.
  - by rewrite bool_decide_eq_true_2.
  - by rewrite bool_decide_eq_false_2.
Qed.

Lemma own_push_mapping_ne serverAlias name m
    (servers : list (jsstring * Config.ServerConfig)) :
  name <> serverAlias ->
  Config.own name (Selector.push_mapping serverAlias m servers)
  = Config.own name servers.
Proof.
  intros Hne. induction servers as [|[n sc] servers IH]; [done|]. cbn.
  case_bool_decide as Hn; cbn.
  - subst n. by rewrite !bool_decide_eq_false_2 by congruence.
  - by rewrite IH.
Qed.

Lemma push_mapping_names serverAlias m
    (servers : list (jsstring * Config.ServerConfig)) :
  map fst (Selector.push_mapping serverAlias m servers) = map fst servers.
Proof.
  induction servers as [|[n sc] servers IH]; [done|]. cbn.
  case_bool_decide; cbn; [done | by rewrite IH].
Qed.

Lemma find_maps_folder folder serverConfig :
  match List.find
          (fun m =>
             bool_decide
               (Selector.normalizePath path_normalize toLowerCase (local m)
                = Selector.normalizePath path_normalize toLowerCase folder))
          (Config.mappings serverConfig) with
  | Some m =>
      Selector.maps_folder path_normalize toLowerCase folder serverConfig = true
      /\ m ∈ Config.mappings serverConfig
      /\ Selector.normalizePath path_normalize toLowerCase (local m)
         = Selector.normalizePath path_normalize toLowerCase folder
  | None =>
      Selector.maps_folder path_normalize toLowerCase folder serverConfig
      = false
  end.
Proof.
  unfold Selector.maps_folder.
  induction (Config.mappings serverConfig) as [|x mappings IH]; [done|]. cbn.
  case_bool_decide as Hx; cbn.
  - split; [done|]. split; [apply list_elem_of_here | done].
  - destruct (List.find _ mappings) as [m|]; [|done].
    destruct IH as (? & ? & ?). split; [done|].
    split; [by apply list_elem_of_further | done].
Qed.

Lemma find_snoc_new folder (mappings : list Mapping) m :
  existsb
    (fun m =>
       bool_decide
         (Selector.normalizePath path_normalize toLowerCase (local m)
          = Selector.normalizePath path_normalize toLowerCase folder))
    mappings
  = false ->
  Selector.normalizePath path_normalize toLowerCase (local m)
  = Selector.normalizePath path_normalize toLowerCase folder ->
  List.find
    (fun m =>
       bool_decide
         (Selector.normalizePath path_normalize toLowerCase (local m)
          = Selector.normalizePath path_normalize toLowerCase folder))
    (mappings ++ [m])
  = Some m.
Proof.
  intros Hnone Hm.
  induction mappings as [|x mappings IH]; cbn in *.
  - by rewrite bool_decide_eq_true_2.
  - apply orb_false_iff in Hnone as [-> Hnone]. by apply IH.
Qed.

End SelectorFacts.

(** X18.  [findServersForPath] returns the names of the servers that have a
    mapping for the folder (compared after [normalizePath]), in the order of
    the configuration, each once however many of its mappings match: with
    distinct server names the result has no duplicates. *)
Theorem findServersForPath_spec path_normalize toLowerCase
    (config : Config.WWConfig) (folder : jsstring) :
  Selector.findServersForPath path_normalize toLowerCase config folder
  = map fst
      (List.filter
         (fun entry =>
            Selector.maps_folder path_normalize toLowerCase folder entry.2)
         (Config.servers config))
  /\ (forall name,
        name ∈ Selector.findServersForPath path_normalize toLowerCase config
                 folder
        <-> exists serverConfig,
              (name, serverConfig) ∈ Config.servers config
              /\ Selector.maps_folder path_normalize toLowerCase folder
                   serverConfig = true)
  /\ (NoDup (map fst (Config.servers config)) ->
      NoDup (Selector.findServersForPath path_normalize toLowerCase config
               folder)).
Proof.
  rewrite findServersForPath_filter. split; [done|]. split.
  - intros name. rewrite list_elem_of_fmap. split.
    + intros ([n sc] & -> & Hin). apply list_elem_of_In, filter_In in Hin.
      destruct Hin as [Hin Hmaps]. exists sc. by rewrite list_elem_of_In.
    + intros (sc & Hin & Hmaps). exists (name, sc). split; [done|].
      apply list_elem_of_In, filter_In. by rewrite <- list_elem_of_In.
  - generalize (Config.servers config). intros servers.
    induction servers as [|[n sc] servers IH]; [done|]. cbn.
    intros Hnodup. apply NoDup_cons in Hnodup as [Hn Hnodup].
    destruct (Selector.maps_folder _ _ folder sc); [|by apply IH].
    cbn. apply NoDup_cons. split; [|by apply IH].
    intros Hin. apply Hn.
    apply list_elem_of_fmap in Hin as ([n' sc'] & -> & Hin).
    apply list_elem_of_In, filter_In in Hin as [Hin _].
    apply list_elem_of_fmap. exists (n', sc'). by rewrite list_elem_of_In.
Qed.

Lemma findServersForPath_spec_witness :
  Selector.findServersForPath (fun p => p) (fun p => p) example_config
    (str "/proj")
  = [str "prod"]
  /\ NoDup (Selector.findServersForPath (fun p => p) (fun p => p)
              example_config (str "/proj")).
Proof.
  destruct (findServersForPath_spec (fun p => p) (fun p => p) example_config
              (str "/proj")) as (Heq & _ & Hnodup).
  split.
  - rewrite Heq. vm_compute. reflexivity.
  - apply Hnodup. vm_compute.
    repeat (constructor; [intros H;
                          repeat (apply elem_of_cons in H as [H|H]; [done|]);
                          by apply not_elem_of_nil in H|]).
    constructor.
Defined.

(** X19.  When the server has a mapping for the folder, [selectOrCreateMapping]
    returns one, with the configuration as it was, without showing anything
    and without saving: the answers are not looked at. *)
Theorem mapping_is_reused path_normalize toLowerCase
    (config : Config.WWConfig) (serverAlias currentPath : jsstring)
    (answers : Selector.mapping_answers) (serverConfig : Config.ServerConfig) :
  Config.own serverAlias (Config.servers config) = Some serverConfig ->
  Selector.maps_folder path_normalize toLowerCase currentPath serverConfig
  = true ->
  exists m,
    Selector.selectOrCreateMapping path_normalize toLowerCase config serverAlias
      currentPath answers
    = (Selector.Done (Some (config, m)), [])
    /\ m ∈ Config.mappings serverConfig
    /\ Selector.normalizePath path_normalize toLowerCase (local m)
       = Selector.normalizePath path_normalize toLowerCase currentPath.
Proof.
  intros Hown Hmaps. unfold Selector.selectOrCreateMapping. rewrite Hown.
  cbv zeta.
  pose proof (find_maps_folder path_normalize toLowerCase currentPath
                serverConfig) as Hfind.
  destruct (List.find _ (Config.mappings serverConfig)) as [m|];
    [|congruence].
  destruct Hfind as (_ & Hin & Hm). by exists m.
Qed.

Lemma mapping_is_reused_witness :
  exists m,
    Selector.selectOrCreateMapping (fun p => p) (fun p => p) example_config
      (str "prod") (str "/proj") example_answers
    = (Selector.Done (Some (example_config, m)), [])
    /\ m ∈ [example_mapping]
    /\ local m = str "/proj".
Proof.
  apply (mapping_is_reused (fun p => p) (fun p => p) example_config
           (str "prod") (str "/proj") example_answers
           {| Config.host := str "deploy@prod.example.org";
              Config.shell := None;
              Config.mappings := [example_mapping] |}).
  - vm_compute. reflexivity.
  - vm_compute. reflexivity.
Defined.

(** X20.  When the server has no mapping for the folder and the box for the
    remote path is dismissed or left empty, [selectOrCreateMapping] returns
    [undefined] after the notice and that one box: nothing is saved and the
    box for the exclusions is not shown. *)
Theorem mapping_creation_cancelled path_normalize toLowerCase
    (config : Config.WWConfig) (serverAlias currentPath : jsstring)
    (answers : Selector.mapping_answers) (serverConfig : Config.ServerConfig) :
  Config.own serverAlias (Config.servers config) = Some serverConfig ->
  Selector.maps_folder path_normalize toLowerCase currentPath serverConfig
  = false ->
  Selector.remotePath_input answers = None
  \/ Selector.remotePath_input answers = Some [] ->
  Selector.selectOrCreateMapping path_normalize toLowerCase config serverAlias
    currentPath answers
  = (Selector.Done None,
     [ Selector.InformationMessage
         (str "No sync configuration found for this folder on '"
          ++ serverAlias ++ str "'. Let's create one.");
       Selector.InputBox (str "Enter remote destination path")
         (str "/var/www/my-app") (Selector.remotePath_input answers) ]).
Proof.
  intros Hown Hmaps Hinput. unfold Selector.selectOrCreateMapping.
  rewrite Hown. cbv zeta.
  pose proof (find_maps_folder path_normalize toLowerCase currentPath
                serverConfig) as Hfind.
  destruct (List.find _ (Config.mappings serverConfig)) as [m|].
  { destruct Hfind as (Hyes & _). congruence. }
  by destruct Hinput as [-> | ->].
Qed.

Lemma mapping_creation_cancelled_witness :
  (Selector.selectOrCreateMapping (fun p => p) (fun p => p) example_config
     (str "staging") (str "/proj")
     {| Selector.remotePath_input := None;
        Selector.excludes_input := Some (str ".git") |}).1
  = Selector.Done None.
Proof.
  rewrite (mapping_creation_cancelled (fun p => p) (fun p => p) example_config
             (str "staging") (str "/proj") _
             {| Config.host := str "deploy@staging.example.org";
                Config.shell := Some (str "zsh");
                Config.mappings := [] |});
    [reflexivity | reflexivity | reflexivity | by left].
Defined.

(** X21.  When the server has no mapping for the folder and a remote path is
    entered, [selectOrCreateMapping] appends to the mappings of that server a
    mapping of the folder to that path with the exclusions entered, saves
    the configuration and returns both.  The other servers and the order of
    the servers are as before.  On the configuration returned the same call
    finds that mapping without asking again, and [findServersForPath] lists
    the server for the folder. *)
Theorem mapping_is_created path_normalize toLowerCase
    (config : Config.WWConfig) (serverAlias currentPath remotePath : jsstring)
    (answers : Selector.mapping_answers) (serverConfig : Config.ServerConfig) :
  Config.own serverAlias (Config.servers config) = Some serverConfig ->
  Selector.maps_folder path_normalize toLowerCase currentPath serverConfig
  = false ->
  Selector.remotePath_input answers = Some remotePath ->
  remotePath <> [] ->
  let m := {| local := currentPath; remote := remotePath;
              excludes := Selector.excludes_of (Selector.excludes_input answers) |} in
  exists config' shown,
    Selector.selectOrCreateMapping path_normalize toLowerCase config serverAlias
      currentPath answers
    = (Selector.Done (Some (config', m)), shown)
    /\ List.filter
         (fun a => match a with Selector.SaveConfig _ => true | _ => false end)
         shown
       = [Selector.SaveConfig config']
    /\ Config.own serverAlias (Config.servers config')
       = Some {| Config.host := Config.host serverConfig;
                 Config.shell := Config.shell serverConfig;
                 Config.mappings := Config.mappings serverConfig ++ [m] |}
    /\ (forall name, name <> serverAlias ->
          Config.own name (Config.servers config')
          = Config.own name (Config.servers config))
    /\ map fst (Config.servers config') = map fst (Config.servers config)
    /\ (forall answers',
          Selector.selectOrCreateMapping path_normalize toLowerCase config'
            serverAlias currentPath answers'
          = (Selector.Done (Some (config', m)), []))
    /\ serverAlias
       ∈ Selector.findServersForPath path_normalize toLowerCase config'
           currentPath.
Proof.
  intros Hown Hmaps Hinput Hpath m.
  pose proof (find_maps_folder path_normalize toLowerCase currentPath
                serverConfig) as Hfind.
  set (config' := {| Config.servers :=
                       Selector.push_mapping serverAlias m
                         (Config.servers config) |}).
  assert (Config.own serverAlias (Config.servers config')
          = Some {| Config.host := Config.host serverConfig;
                    Config.shell := Config.shell serverConfig;
                    Config.mappings := Config.mappings serverConfig ++ [m] |})
    as Hown'.
  { unfold config'. cbn. by rewrite own_push_mapping, Hown. }
  assert (List.find
            (fun m0 =>
               bool_decide
                 (Selector.normalizePath path_normalize toLowerCase (local m0)
                  = Selector.normalizePath path_normalize toLowerCase
                      currentPath))
            (Config.mappings serverConfig ++ [m]) = Some m) as Hfound.
  { by apply find_snoc_new. }
  eexists config', _. split; [|split; [|split; [|split; [|split; [|split]]]]].
  - unfold Selector.selectOrCreateMapping. rewrite Hown. cbv zeta.
    destruct (List.find _ (Config.mappings serverConfig)) as [x|].
    { destruct Hfind as (Hyes & _). congruence. }
    rewrite Hinput. destruct remotePath; [done|]. cbn [truthy negb].
    reflexivity.
  - done.
  - exact Hown'.
  - intros name Hne. unfold config'. cbn. by apply own_push_mapping_ne.
  - unfold config'. cbn. apply push_mapping_names.
  - intros answers'. unfold Selector.selectOrCreateMapping.
    rewrite Hown'. cbv zeta. cbn [Config.mappings]. by rewrite Hfound.
  - rewrite findServersForPath_filter.
    apply list_elem_of_fmap. eexists (serverAlias, _). split; [done|].
    apply list_elem_of_In, filter_In. split.
    + apply list_elem_of_In. by apply own_elem.
    + cbn [snd]. unfold Selector.maps_folder. cbn [Config.mappings].
      rewrite existsb_app. cbn. rewrite bool_decide_eq_true_2 by done.
      by rewrite orb_true_r.
Qed.

Lemma mapping_is_created_witness :
  exists config' shown,
    Selector.selectOrCreateMapping (fun p => p) (fun p => p) example_config
      (str "staging") (str "/proj") example_answers
    = (Selector.Done
         (Some (config',
                {| local := str "/proj"; remote := str "/srv/app";
                   excludes := [str ".git"; str "node_modules"; str "*.log"] |})),
       shown)
    /\ str "staging"
       ∈ Selector.findServersForPath (fun p => p) (fun p => p) config'
           (str "/proj").
Proof.
  destruct (mapping_is_created (fun p => p) (fun p => p) example_config
              (str "staging") (str "/proj") (str "/srv/app") example_answers
              {| Config.host := str "deploy@staging.example.org";
                 Config.shell := Some (str "zsh");
                 Config.mappings := [] |})
    as (config' & shown & Hrun & _ & _ & _ & _ & _ & Hlisted);
    [reflexivity | reflexivity | reflexivity | vm_compute; discriminate |].
  exists config', shown. split; [|exact Hlisted].
  refine (eq_trans Hrun _). reflexivity.
Defined.

(** * Beyond the claims: the password requests *)

Section AskPassFacts.

Lemma or_else_truthy (a b : jsstring) :
  truthy b = true -> truthy (or_else a b) = true.
Proof. by destruct a. Qed.

Lemma onEnd_frame (body : jsstring) (answer : option jsstring)
    (sessionState : SessionState.t) :
  SessionState._serverChoice (AskPass.onEnd body answer sessionState).2
  = SessionState._serverChoice sessionState
  /\ SessionState._onDidChange (AskPass.onEnd body answer sessionState).2
     = SessionState._onDidChange sessionState.
Proof.
  unfold AskPass.onEnd.
  destruct (SessionState.getPassword _ sessionState) as [c|];
    [destruct (truthy c)|]; by destruct answer.
Qed.

End AskPassFacts.

(** X22.  Once a password request was answered with status 200 and a password
    that is not empty, every later request whose body is the same up to
    surrounding white space gets the same response without an input box and
    leaves the session state as it is, whatever the user would have entered;
    after [resetPasswords] the box is shown again. *)
Theorem answered_password_is_served_again (body body' : jsstring)
    (answer answer' : option jsstring) (sessionState : SessionState.t) :
  let '(response, _, sessionState') :=
    AskPass.onEnd body answer sessionState in
  AskPass.statusCode response = 200 ->
  AskPass.payload response <> [] ->
  trim body' = trim body ->
  AskPass.onEnd body' answer' sessionState'
  = (response, None, sessionState')
  /\ (AskPass.onEnd body' answer'
        (SessionState.resetPasswords sessionState')).1.2
     = Some (or_else (trim body) (str "Password required:")).
Proof.
  unfold AskPass.onEnd. intros.
  destruct (SessionState.getPassword _ sessionState) as [c|] eqn:Hcached;
    [destruct (truthy c) eqn:Hc|].
  - intros _ _ ->. rewrite Hcached, Hc. split; [by destruct c|].
    unfold SessionState.getPassword, SessionState.resetPasswords. cbn.
    rewrite lookup_empty. by destruct answer'.
  - destruct answer as [password|]; [|done]. cbn.
    intros _ Hpassword ->.
    unfold SessionState.getPassword, SessionState.setPassword,
      SessionState.resetPasswords. cbn.
    rewrite lookup_insert_eq, lookup_empty.
    destruct password; [done|]. cbn. split; [done|]. by destruct answer'.
  - destruct answer as [password|]; [|done]. cbn.
    intros _ Hpassword ->.
    unfold SessionState.getPassword, SessionState.setPassword,
      SessionState.resetPasswords. cbn.
    rewrite lookup_insert_eq, lookup_empty.
    destruct password; [done|]. cbn. split; [done|]. by destruct answer'.
Qed.

Lemma answered_password_is_served_again_witness :
  AskPass.onEnd (map N_of_ascii [" "%char] ++ str "user@10.0.0.5's password:")
    None
    (AskPass.onEnd (str "user@10.0.0.5's password: ") (Some (str "secret"))
       SessionState.create).2
  = ({| AskPass.statusCode := 200; AskPass.payload := str "secret" |}, None,
     (AskPass.onEnd (str "user@10.0.0.5's password: ") (Some (str "secret"))
        SessionState.create).2).
Proof.
  pose proof (answered_password_is_served_again
                (str "user@10.0.0.5's password: ")
                (map N_of_ascii [" "%char] ++ str "user@10.0.0.5's password:")
                (Some (str "secret")) None SessionState.create) as H.
  assert ((AskPass.onEnd (str "user@10.0.0.5's password: ")
             (Some (str "secret")) SessionState.create).1.1
          = {| AskPass.statusCode := 200; AskPass.payload := str "secret" |})
    as Hfirst.
  { vm_compute. reflexivity. }
  destruct (AskPass.onEnd (str "user@10.0.0.5's password: ")
              (Some (str "secret")) SessionState.create)
    as [[response shown] sessionState'].
  cbn [fst snd] in *. subst response.
  apply H.
  - reflexivity.
  - vm_compute. discriminate.
  - vm_compute. reflexivity.
Defined.

(** X23.  What a password request can do.  The response has status 200 or 404;
    it has 404 exactly when the box was shown and dismissed, and then the
    body of the response is empty and no password is stored.  A password
    that is entered is stored under the prompt even if it is empty, and an
    empty one is asked for again at the next request.  The prompt is the
    trimmed body, or [Password required:] for a body of white space.  No
    request changes the server choices, fires [onDidChange] or changes the
    password of another prompt. *)
Theorem password_request_outcome (body : jsstring) (answer : option jsstring)
    (sessionState : SessionState.t) :
  let promptText := or_else (trim body) (str "Password required:") in
  let '(response, shown, sessionState') :=
    AskPass.onEnd body answer sessionState in
  (AskPass.statusCode response = 200 \/ AskPass.statusCode response = 404)
  /\ (AskPass.statusCode response = 404
      <-> shown = Some promptText /\ answer = None)
  /\ (AskPass.statusCode response = 404 ->
      AskPass.payload response = [] /\ sessionState' = sessionState)
  /\ (shown = None ->
      sessionState' = sessionState
      /\ AskPass.payload response <> []
      /\ SessionState.getPassword promptText sessionState
         = Some (AskPass.payload response))
  /\ (shown <> None -> forall password, answer = Some password ->
      AskPass.payload response = password
      /\ SessionState.getPassword promptText sessionState' = Some password
      /\ (password = [] -> forall answer',
            (AskPass.onEnd body answer' sessionState').1.2 = Some promptText))
  /\ (shown = None \/ shown = Some promptText)
  /\ promptText <> []
  /\ (forall prompt, prompt <> promptText ->
        SessionState.getPassword prompt sessionState'
        = SessionState.getPassword prompt sessionState)
  /\ (forall key,
        SessionState.get key sessionState' = SessionState.get key sessionState)
  /\ SessionState._onDidChange sessionState'
     = SessionState._onDidChange sessionState.
Proof.
  intros promptText.
  assert (promptText <> []) as Hprompt.
  { unfold promptText. by destruct (trim body). }
  unfold AskPass.onEnd. fold promptText.
  destruct (SessionState.getPassword promptText sessionState) as [c|]
    eqn:Hcached; [destruct (truthy c) eqn:Hc|].
  - cbn. repeat split; try done; try by left.
    + by intros [? _].
    + by destruct c.
  - destruct answer as [password|]; cbn.
    + repeat split; try done; try by (left + right).
      * by intros [_ ?].
      * congruence.
      * unfold SessionState.getPassword, SessionState.setPassword. cbn.
        rewrite lookup_insert_eq. congruence.
      * intros -> answer'. unfold AskPass.onEnd. fold promptText.
        unfold SessionState.getPassword, SessionState.setPassword. cbn.
        rewrite lookup_insert_eq. assert (password = []) as -> by congruence.
        cbn. by destruct answer'.
      * intros prompt Hne.
        unfold SessionState.getPassword, SessionState.setPassword. cbn.
        by apply lookup_insert_ne.
    + repeat split; try done; by (left + right).
  - destruct answer as [password|]; cbn.
    + repeat split; try done; try by (left + right).
      * by intros [_ ?].
      * congruence.
      * unfold SessionState.getPassword, SessionState.setPassword. cbn.
        rewrite lookup_insert_eq. congruence.
      * intros -> answer'. unfold AskPass.onEnd. fold promptText.
        unfold SessionState.getPassword, SessionState.setPassword. cbn.
        rewrite lookup_insert_eq. assert (password = []) as -> by congruence.
        cbn. by destruct answer'.
      * intros prompt Hne.
        unfold SessionState.getPassword, SessionState.setPassword. cbn.
        by apply lookup_insert_ne.
    + repeat split; try done; by (left + right).
Qed.

Lemma password_request_outcome_witness :
  (AskPass.onEnd (map N_of_ascii [" "%char]) None SessionState.create).1
  = ({| AskPass.statusCode := 404; AskPass.payload := [] |},
     Some (str "Password required:")).
Proof.
  pose proof (password_request_outcome (map N_of_ascii [" "%char]) None
                SessionState.create) as H.
  assert (AskPass.statusCode
            (AskPass.onEnd (map N_of_ascii [" "%char]) None
               SessionState.create).1.1 = 404) as Hcode.
  { vm_compute. reflexivity. }
  destruct (AskPass.onEnd (map N_of_ascii [" "%char]) None SessionState.create)
    as [[response shown] sessionState'].
  destruct H as (_ & H404 & Hempty & _).
  cbn [fst snd] in *.
  destruct (proj1 H404 Hcode) as [-> _].
  destruct (Hempty Hcode) as [Hpayload _].
  destruct response as [code text]. cbn in *. subst. reflexivity.
Defined.

(** * Beyond the claims: the server shown in the status bar *)

(** X24.  [getServerForCurrentFolder].  A server it returns is the one the
    session state holds for the folder afterwards, and a server with a name
    that is not empty is then returned again without the configuration being
    consulted, even if it cannot be read, and without a further change.  It
    changes the session state only when it returns a server, only at the
    folder, and [onDidChange] fires at most once; when the configuration
    cannot be read and no server is held, the error is thrown and nothing
    changes.  The passwords are never touched. *)
Theorem status_bar_server path_normalize toLowerCase
    (loadConfig : Config.WWConfig + Error) (currentPath : jsstring)
    (sessionState : SessionState.t) :
  let '(result, sessionState') :=
    StatusBar.getServerForCurrentFolder path_normalize toLowerCase loadConfig
      currentPath sessionState in
  (forall server, result = Return (Some server) ->
     SessionState.get currentPath sessionState' = Some server
     /\ (server <> [] -> forall loadConfig',
           StatusBar.getServerForCurrentFolder path_normalize toLowerCase
             loadConfig' currentPath sessionState'
           = (Return (Some server), sessionState')))
  /\ ((forall server, result <> Return (Some server)) ->
      sessionState' = sessionState)
  /\ (forall e, result = Throw e ->
        loadConfig = inr e
        /\ forall server,
             SessionState.get currentPath sessionState = Some server ->
             server = [])
  /\ result <> Never
  /\ (forall key, key <> currentPath ->
        SessionState.get key sessionState'
        = SessionState.get key sessionState)
  /\ SessionState._passwords sessionState'
     = SessionState._passwords sessionState
  /\ (SessionState._onDidChange sessionState'
      <= S (SessionState._onDidChange sessionState))%nat.
Proof.
  assert (forall server this,
            SessionState.get currentPath this = Some server ->
            server <> [] ->
            forall loadConfig',
              StatusBar.getServerForCurrentFolder path_normalize toLowerCase
                loadConfig' currentPath this
              = (Return (Some server), this)) as Hheld.
  { intros server this Hget Hserver loadConfig'.
    unfold StatusBar.getServerForCurrentFolder. rewrite Hget.
    by destruct server. }
  assert (forall server,
            SessionState.get currentPath
              (SessionState.set currentPath server sessionState)
            = Some server) as Hset.
  { intros server. unfold SessionState.get, SessionState.set.
    case_bool_decide as Hcurrent; cbn.
    - apply lookup_insert_eq.
    - done. }
  assert (forall server key, key <> currentPath ->
            SessionState.get key
              (SessionState.set currentPath server sessionState)
            = SessionState.get key sessionState) as Hother.
  { intros server key Hne. unfold SessionState.get, SessionState.set.
    case_bool_decide; cbn; [|done]. by apply lookup_insert_ne. }
  assert (forall server,
            SessionState._passwords
              (SessionState.set currentPath server sessionState)
            = SessionState._passwords sessionState
            /\ (SessionState._onDidChange
                  (SessionState.set currentPath server sessionState)
                <= S (SessionState._onDidChange sessionState))%nat) as Hrest.
  { intros server. unfold SessionState.set.
    case_bool_decide; cbn; split; (done || lia). }
  destruct (StatusBar.getServerForCurrentFolder path_normalize toLowerCase
              loadConfig currentPath sessionState)
    as [result sessionState'] eqn:Hrun.
  assert ((exists held,
             SessionState.get currentPath sessionState = Some held
             /\ held <> [] /\ result = Return (Some held)
             /\ sessionState' = sessionState)
          \/ ((forall server,
                 SessionState.get currentPath sessionState = Some server ->
                 server = [])
              /\ ((exists e, loadConfig = inr e /\ result = Throw e
                             /\ sessionState' = sessionState)
                  \/ (result = Return None /\ sessionState' = sessionState)
                  \/ (exists singleServer,
                        result = Return (Some singleServer)
                        /\ sessionState'
                           = SessionState.set currentPath singleServer
                               sessionState)))) as Hcases.
  { unfold StatusBar.getServerForCurrentFolder in Hrun.
    destruct (SessionState.get currentPath sessionState) as [held|];
      [destruct held as [|c held]|].
    2:{ left. exists (c :: held). by injection Hrun as <- <-. }
    all: right; split; [intros server; congruence|].
    all: destruct loadConfig as [config|e];
      [|left; exists e; by injection Hrun as <- <-].
    all: destruct (Selector.findServersForPath _ _ config currentPath)
           as [|singleServer [|]]; injection Hrun as <- <-;
      solve [ right; left; done
            | right; right; by exists singleServer ]. }
  destruct Hcases
    as [(held & Hget & Hheld_truthy & -> & ->)
       | (Hnone & [(e & -> & -> & ->) | [[-> ->] | (single & -> & ->)]])].
  - repeat split; try done; try lia.
    + congruence.
    + intros Hne loadConfig'. injection H as <-. by apply Hheld.
  - repeat split; try done; try lia; congruence.
  - repeat split; try done; try lia.
  - repeat split; try done.
    + injection H as <-. apply Hset.
    + intros Hne loadConfig'. injection H as <-. by apply Hheld.
    + intros Hno. by destruct (Hno single).
    + apply Hother.
    + apply Hrest.
    + apply Hrest.
Qed.

Lemma status_bar_server_witness :
  StatusBar.getServerForCurrentFolder (fun p => p) (fun p => p)
    (inr {| message := str "Invalid JSON in ~/.wwsync" |}) (str "/proj")
    (StatusBar.getServerForCurrentFolder (fun p => p) (fun p => p)
       (inl example_config) (str "/proj") SessionState.create).2
  = (Return (Some (str "prod")),
     (StatusBar.getServerForCurrentFolder (fun p => p) (fun p => p)
        (inl example_config) (str "/proj") SessionState.create).2).
Proof.
  pose proof (status_bar_server (fun p => p) (fun p => p) (inl example_config)
                (str "/proj") SessionState.create) as H.
  assert ((StatusBar.getServerForCurrentFolder (fun p => p) (fun p => p)
             (inl example_config) (str "/proj") SessionState.create).1
          = Return (Some (str "prod"))) as Hfirst.
  { vm_compute. reflexivity. }
  destruct (StatusBar.getServerForCurrentFolder (fun p => p) (fun p => p)
              (inl example_config) (str "/proj") SessionState.create)
    as [result sessionState'].
  cbn [fst snd] in *.
  destruct H as (Hreturned & _).
  destruct (Hreturned (str "prod") Hfirst) as [_ Hagain].
  apply Hagain. vm_compute. discriminate.
Defined.
